(** * The Coq state machine of coqide.vim (autoload/python/coqide/stm.py)

    A shallow embedding of the [_Document], [_FeedbackHandler],
    [_SequentialTaskThread] and [STM] classes, and the properties of the
    document model and of the forward / backward protocol handlers.

    Conventions.
    - Python integers are [Z]; list positions produced by [len] and
      [list.index] are [nat].
    - A method that may raise is a computation in the monad [M]: it returns
      an [outcome] together with the state as it is at the moment of return
      or of the raise, so a partially executed loop leaves its partial
      mutations visible.
    - [call_async] and [handle_action] are the two sinks of the STM: the
      requests and the actions are appended to logs kept in the state, and
      a request is logged with the callback that [call_async] received. *)

From stdpp Require Import gmap strings list fin_maps.

Local Open Scope Z_scope.

(** ** Exceptions and the state-and-exception monad *)

Inductive exn : Type :=
  | KeyError
  | ValueError
  | IndexError
  | RuntimeError (msg : string).

Inductive outcome (A : Type) : Type :=
  | Ok (a : A)
  | Raise (e : exn).
Arguments Ok {A} a.
Arguments Raise {A} e.

Definition M (S A : Type) : Type := S → outcome A * S.

Definition ret {S A} (a : A) : M S A := λ s, (Ok a, s).

Definition bind {S A B} (m : M S A) (k : A → M S B) : M S B :=
  λ s, match m s with
       | (Ok a, s') => k a s'
       | (Raise e, s') => (Raise e, s')
       end.

Definition raise {S A} (e : exn) : M S A := λ s, (Raise e, s).
Definition get {S} : M S S := λ s, (Ok s, s).
Definition gets {S A} (f : S → A) : M S A := λ s, (Ok (f s), s).
Definition modify {S} (f : S → S) : M S unit := λ s, (Ok tt, f s).
Definition lift {S A} (o : outcome A) : M S A := λ s, (o, s).

(** [try: body finally: cleanup], the shape of the [_finally_call]
    decorator: [cleanup] runs on both exits and the exception of [body]
    is raised again after it. *)
Definition _finally_call {S A} (cleanup : M S unit) (body : M S A) : M S A :=
  λ s, match body s with
       | (Ok a, s') =>
           match cleanup s' with
           | (Ok _, s'') => (Ok a, s'')
           | (Raise e, s'') => (Raise e, s'')
           end
       | (Raise e, s') =>
           match cleanup s' with
           | (Ok _, s'') => (Raise e, s'')
           | (Raise e', s'') => (Raise e', s'')
           end
       end.

Declare Scope py_scope.
Delimit Scope py_scope with py.
Notation "x <- m ;; k" := (bind m (λ x, k))
  (at level 100, m at next level, right associativity) : py_scope.
Notation "m ;; k" := (bind m (λ _, k))
  (at level 100, right associativity) : py_scope.
Local Open Scope py_scope.

(** [for x in xs: body x] *)
Fixpoint for_each {S A} (xs : list A) (body : A → M S unit) : M S unit :=
  match xs with
  | [] => ret tt
  | x :: xs' => body x ;; for_each xs' body
  end.

(** Run a computation on a component of a larger state. *)
Definition zoom {S T A} (proj : S → T) (upd : T → S → S) (m : M T A) : M S A :=
  λ s, match m (proj s) with (o, t) => (o, upd t s) end.

(** ** Python list and range primitives *)

Section py_list.
Context {A : Type} `{EqDecision A}.

(** [l.index(x)]: the first position of [x], [ValueError] when absent. *)
Fixpoint py_index (l : list A) (x : A) : outcome nat :=
  match l with
  | [] => Raise ValueError
  | y :: l' =>
      if decide (y = x) then Ok 0%nat
      else match py_index l' x with
           | Ok i => Ok (S i)
           | Raise e => Raise e
           end
  end.

(** [l.remove(x)]: drops the first occurrence, [ValueError] when absent. *)
Fixpoint py_remove (l : list A) (x : A) : outcome (list A) :=
  match l with
  | [] => Raise ValueError
  | y :: l' =>
      if decide (y = x) then Ok l'
      else match py_remove l' x with
           | Ok r => Ok (y :: r)
           | Raise e => Raise e
           end
  end.

(** [l.insert(i, x)] for [0 <= i]; positions past the end append. *)
Definition py_insert (l : list A) (i : nat) (x : A) : list A :=
  take i l ++ x :: drop i l.

(** [l[i]]: negative positions count from the end, [IndexError] outside. *)
Definition py_getitem (l : list A) (i : Z) : outcome A :=
  let n := Z.of_nat (length l) in
  let j := if decide (i < 0) then i + n else i in
  if decide (0 ≤ j < n) then
    match l !! Z.to_nat j with
    | Some x => Ok x
    | None => Raise IndexError
    end
  else Raise IndexError.
End py_list.

(** [slice(start, stop)] with step [None]; [None] bounds are open. *)
Record slice : Type := Slice { slice_start : option Z; slice_stop : option Z }.

(** The clamping of [slice.indices(len)] for one bound. *)
Definition slice_bound (n : nat) (dflt : nat) (b : option Z) : nat :=
  match b with
  | None => dflt
  | Some i =>
      if decide (i < 0) then Z.to_nat (Z.max (i + Z.of_nat n) 0)
      else Z.to_nat (Z.min i (Z.of_nat n))
  end.

Definition slice_lo (n : nat) (sl : slice) : nat := slice_bound n 0%nat (slice_start sl).
Definition slice_hi (n : nat) (sl : slice) : nat := slice_bound n n (slice_stop sl).

(** [l[sl]] *)
Definition py_slice {A} (l : list A) (sl : slice) : list A :=
  let lo := slice_lo (length l) sl in
  let hi := slice_hi (length l) sl in
  take (hi - lo)%nat (drop lo l).

(** [del l[sl]] *)
Definition py_del_slice {A} (l : list A) (sl : slice) : list A :=
  let lo := slice_lo (length l) sl in
  let hi := slice_hi (length l) sl in
  take lo l ++ drop (lo `max` hi)%nat l.

(** [range(a, b)] *)
Definition py_range (a b : Z) : list Z := seqZ a (b - a).

(** ** Sentences *)

Record Mark : Type := mkMark { line : Z; col : Z }.
Record Region : Type := mkRegion { start : Mark; stop : Mark; command : string }.

(** Modelled from the spec: the [Sentence] class of [coqide/sentence.py],
    which is not part of the sources at hand. "Sentence: mutable entity
    wrapping a Region, an assigned state_id, and a highlight status
    (Processing | Processed | Error | Axiom | none)."  A sentence object is
    identified by its allocation number [obj]; [region] and [state_id] are
    assigned by the constructor and no reachable statement of stm.py
    reassigns them (the only assignment sits after the unconditional
    [return] of [on_text_changed]), so they travel with the reference.  The
    highlight status is mutable and shared and lives in the store of the
    STM. Equality of sentences is equality of the objects. *)
Record Sentence : Type := mkSentence { obj : nat; region : Region; state_id : Z }.

Definition Location : Type := option (Z * Z).

Inductive Status : Type :=
  | StProcessing
  | StProcessed
  | StError (location : Location) (message : string)
  | StAxiom.

Global Instance Mark_eq_dec : EqDecision Mark.
Proof. solve_decision. Defined.
Global Instance Region_eq_dec : EqDecision Region.
Proof. solve_decision. Defined.
Global Instance Sentence_eq_dec : EqDecision Sentence.
Proof. solve_decision. Defined.
Global Instance Status_eq_dec : EqDecision Status.
Proof. solve_decision. Defined.

(** The lines a sentence spans: [range(start.line, stop.line + 1)]. *)
Definition sentence_lines (s : Sentence) : list Z :=
  py_range (line (start (region s))) (line (stop (region s)) + 1).

(** ** _Document *)

Record _Document : Type := mkDocument {
  sentences : list Sentence;
  state_id_map : gmap Z Sentence;
  line_map : gmap Z (list Sentence)
}.

Definition set_sentences (f : list Sentence → list Sentence) (d : _Document) :=
  mkDocument (f (sentences d)) (state_id_map d) (line_map d).
Definition set_state_id_map (f : gmap Z Sentence → gmap Z Sentence) (d : _Document) :=
  mkDocument (sentences d) (f (state_id_map d)) (line_map d).
Definition set_line_map (f : gmap Z (list Sentence) → gmap Z (list Sentence)) (d : _Document) :=
  mkDocument (sentences d) (state_id_map d) (f (line_map d)).

Module Document.

(** [_Document.__init__] *)
Definition init : _Document := mkDocument [] ∅ ∅.

(** [d[k]] on a dict: [KeyError] on a missing key. *)
Definition dict_getitem {V} (m : gmap Z V) (k : Z) : outcome V :=
  match m !! k with
  | Some v => Ok v
  | None => Raise KeyError
  end.

(** [del d[k]] on the state id map. *)
Definition del_state_id (k : Z) : M _Document unit :=
  d <- get ;;
  _ <- lift (dict_getitem (state_id_map d) k) ;;
  modify (set_state_id_map (delete k)).

(** The body of the line loop of [add]. *)
Definition add_line (sentence : Sentence) (ln : Z) : M _Document unit :=
  d <- get ;;
  match line_map d !! ln with
  | Some l => modify (set_line_map <[ln := l ++ [sentence]]>)
  | None => modify (set_line_map <[ln := [sentence]]>)
  end.

(** [_Document.add] *)
Definition add (sentence : Sentence) (tip : option Sentence) : M _Document unit :=
  d <- get ;;
  index <- match tip with
           | Some t => i <- lift (py_index (sentences d) t) ;; ret (i + 1)%nat
           | None => ret (length (sentences d))
           end ;;
  modify (set_sentences (λ l, py_insert l index sentence)) ;;
  modify (set_state_id_map <[state_id sentence := sentence]>) ;;
  for_each (sentence_lines sentence) (add_line sentence).

(** The body of the line loop of [remove_by_index]:
    [self.line_map[line].remove(sentence)]. *)
Definition remove_line (sentence : Sentence) (ln : Z) : M _Document unit :=
  d <- get ;;
  l <- lift (dict_getitem (line_map d) ln) ;;
  l' <- lift (py_remove l sentence) ;;
  modify (set_line_map <[ln := l']>).

(** [_Document.remove_by_index] *)
Definition remove_by_index (index_slice : slice) : M _Document unit :=
  d <- get ;;
  for_each (py_slice (sentences d) index_slice) (λ sentence,
    del_state_id (state_id sentence) ;;
    for_each (sentence_lines sentence) (remove_line sentence)) ;;
  modify (set_sentences (λ l, py_del_slice l index_slice)).

(** [_Document.clear] *)
Definition clear : M _Document unit :=
  modify (set_sentences (λ _, [])) ;;
  modify (set_state_id_map (λ _, ∅)) ;;
  modify (set_line_map (λ _, ∅)).

(** [_Document.iter_covering_line] *)
Definition iter_covering_line (d : _Document) (ln : Z) : list Sentence :=
  default [] (line_map d !! ln).

(** [_Document.iter_starting_line] *)
Definition iter_starting_line (d : _Document) (ln : Z) : list Sentence :=
  filter (λ s, line (start (region s)) = ln) (default [] (line_map d !! ln)).


(** [_Document.__len__] and [_Document.__bool__] *)
Definition len (d : _Document) : nat := length (sentences d).
Definition bool_ (d : _Document) : bool :=
  match sentences d with [] => false | _ => true end.

End Document.

(** ** The protocol values of [xmlprotocol] and the actions of [actions]

    Neither module is part of the sources at hand; their values are the
    shapes stm.py reads and builds. *)

(** Modelled from the spec: the goals carried by a Goal response are opaque
    to the state machine. *)
Definition Goals : Type := list string.

Inductive Request : Type :=
  | InitReq
  | AddReq (cmd : string) (edit_id : Z) (pred_state_id : option Z) (verbose : bool)
  | EditAtReq (target_state_id : option Z)
  | GoalReq.

Record ErrorInfo : Type := mkErrorInfo {
  err_location : Location;
  err_state_id : Z;
  err_message : string
}.

Record InitRes : Type := mkInitRes {
  init_error : option ErrorInfo;
  init_state_id : option Z
}.

Record AddRes : Type := mkAddRes {
  add_error : option ErrorInfo;
  new_state_id : Z;
  next_state_id : option Z;
  add_message : string
}.

Record EditAtRes : Type := mkEditAtRes {
  edit_error : option ErrorInfo;
  focused : bool;
  qed : option Z
}.

Record GoalRes : Type := mkGoalRes {
  goal_error : option ErrorInfo;
  goals : Goals
}.

(** Modelled from the spec: the actions [HlSentence] and [UnhlSentence]
    stand for whatever the methods of [Sentence] hand to [handle_action]
    ("the editor-side rendering/highlighting of sentences (treated as an
    opaque handle_action(action) sink)").  [ShowMessage], [ShowGoals] and
    [ConnLost] are the actions stm.py builds itself. *)
Inductive Action : Type :=
  | ShowMessage (message : string) (level : string)
  | ShowGoals (g : Goals)
  | ConnLost (bufnr : Z)
  | HlSentence (s : Sentence) (st : Status)
  | UnhlSentence (s : Sentence).

(** The classes tested by [_FeedbackHandler.__call__]. *)
Inductive FbClass : Type := ErrorMsgT | MessageT | ProcessedT | AddedAxiomT.

(** A feedback payload: the classes it is an instance of (the class
    hierarchy of [xmlprotocol] is a parameter here) and the attributes the
    handlers read. *)
Record FeedbackContent : Type := mkContent {
  isinstance : FbClass → bool;
  fb_location : Location;
  fb_message : string;
  fb_level : string
}.

Record Feedback : Type := mkFeedback {
  fb_state_id : option Z;
  content : FeedbackContent
}.

Global Instance ErrorInfo_eq_dec : EqDecision ErrorInfo.
Proof. solve_decision. Defined.
Global Instance Request_eq_dec : EqDecision Request.
Proof. solve_decision. Defined.
Global Instance Action_eq_dec : EqDecision Action.
Proof. solve_decision. Defined.
Global Instance FbClass_eq_dec : EqDecision FbClass.
Proof. solve_decision. Defined.

(** ** _SequentialTaskThread *)

(** The tasks stm.py schedules, one constructor per closure [task]. *)
Inductive Task : Type :=
  | TaskInit
  | TaskForwardOne (sregion : Region)
  | TaskBackward
  | TaskBackwardBeforeMark (mark : Mark)
  | TaskEditAtCurrentState
  | TaskGetGoals.

(** [task_done] is the value of the semaphore released by [done]. *)
Record _SequentialTaskThread : Type := mkTaskThread {
  _closing : bool;
  _scheduled_task_count : Z;
  _schedule_queue : list Task;
  task_done : nat
}.

Module TaskThread.

Definition init : _SequentialTaskThread := mkTaskThread false 0 [] 0%nat.

(** [schedule], for a queue with room: the count goes up and [Queue.put]
    appends the task and returns.  On a queue that already holds its 100
    entries [put] keeps the caller waiting until the worker thread has taken
    one off; that wait is not modelled, and what is stated of the calls that
    schedule is stated for queues with room. *)
Definition schedule (task : Task) : M _SequentialTaskThread unit :=
  modify (λ t, mkTaskThread (_closing t) (_scheduled_task_count t + 1)
                            (_schedule_queue t ++ [task]) (task_done t)).

(** [discard_scheduled_tasks]: one decrement per task taken off. *)
Definition discard_scheduled_tasks : M _SequentialTaskThread unit :=
  modify (λ t, mkTaskThread (_closing t)
                            (_scheduled_task_count t - Z.of_nat (length (_schedule_queue t)))
                            [] (task_done t)).

(** The [done] callback. *)
Definition done : M _SequentialTaskThread unit :=
  modify (λ t, mkTaskThread (_closing t) (_scheduled_task_count t)
                            (_schedule_queue t) (S (task_done t))).

Definition scheduled_task_count (t : _SequentialTaskThread) : Z :=
  _scheduled_task_count t.

End TaskThread.

(** ** STM *)

(** The closure [on_res] handed to [call_async], with what it captured. *)
Inductive Callback : Type :=
  | OnInitRes
  | OnAddRes (sregion : Region)
  | OnEditAtRes (index : Z)
  | OnGoalRes.

(** The fields of [STM], followed by its surroundings: the highlight status
    of every sentence object, the allocation counter of [Sentence(...)],
    what [handle_action] received and what [call_async] received. *)
Record STM : Type := mkSTM {
  _doc : _Document;
  _failed_sentence : option Sentence;
  _init_state_id : option Z;
  _task_thread : _SequentialTaskThread;
  _bufnr : Z;
  _tip_sentence : option Sentence;
  store : gmap nat Status;
  next_obj : nat;
  actions : list Action;
  requests : list (Request * Callback)
}.

Definition set_doc (f : _Document → _Document) (x : STM) : STM :=
  mkSTM (f (_doc x)) (_failed_sentence x) (_init_state_id x) (_task_thread x)
        (_bufnr x) (_tip_sentence x) (store x) (next_obj x) (actions x) (requests x).
Definition set_failed_sentence (v : option Sentence) (x : STM) : STM :=
  mkSTM (_doc x) v (_init_state_id x) (_task_thread x)
        (_bufnr x) (_tip_sentence x) (store x) (next_obj x) (actions x) (requests x).
Definition set_init_state_id (v : option Z) (x : STM) : STM :=
  mkSTM (_doc x) (_failed_sentence x) v (_task_thread x)
        (_bufnr x) (_tip_sentence x) (store x) (next_obj x) (actions x) (requests x).
Definition set_task_thread (f : _SequentialTaskThread → _SequentialTaskThread) (x : STM) : STM :=
  mkSTM (_doc x) (_failed_sentence x) (_init_state_id x) (f (_task_thread x))
        (_bufnr x) (_tip_sentence x) (store x) (next_obj x) (actions x) (requests x).
Definition set_tip_sentence (v : option Sentence) (x : STM) : STM :=
  mkSTM (_doc x) (_failed_sentence x) (_init_state_id x) (_task_thread x)
        (_bufnr x) v (store x) (next_obj x) (actions x) (requests x).
Definition set_store (f : gmap nat Status → gmap nat Status) (x : STM) : STM :=
  mkSTM (_doc x) (_failed_sentence x) (_init_state_id x) (_task_thread x)
        (_bufnr x) (_tip_sentence x) (f (store x)) (next_obj x) (actions x) (requests x).
Definition set_next_obj (f : nat → nat) (x : STM) : STM :=
  mkSTM (_doc x) (_failed_sentence x) (_init_state_id x) (_task_thread x)
        (_bufnr x) (_tip_sentence x) (store x) (f (next_obj x)) (actions x) (requests x).
Definition set_actions (f : list Action → list Action) (x : STM) : STM :=
  mkSTM (_doc x) (_failed_sentence x) (_init_state_id x) (_task_thread x)
        (_bufnr x) (_tip_sentence x) (store x) (next_obj x) (f (actions x)) (requests x).
Definition set_requests (f : list (Request * Callback) → list (Request * Callback)) (x : STM) : STM :=
  mkSTM (_doc x) (_failed_sentence x) (_init_state_id x) (_task_thread x)
        (_bufnr x) (_tip_sentence x) (store x) (next_obj x) (actions x) (f (requests x)).

(** Document and task-thread methods called on [self._doc] and
    [self._task_thread]. *)
Definition on_doc {A} (m : M _Document A) : M STM A :=
  zoom _doc (λ d, set_doc (λ _, d)) m.
Definition on_task_thread {A} (m : M _SequentialTaskThread A) : M STM A :=
  zoom _task_thread (λ t, set_task_thread (λ _, t)) m.

(** The two sinks. *)
Definition handle_action (a : Action) : M STM unit :=
  modify (set_actions (λ l, l ++ [a])).
Definition call_async (req : Request) (on_res : Callback) : M STM unit :=
  modify (set_requests (λ l, l ++ [(req, on_res)])).

(** Modelled from the spec: the methods of [Sentence] ("Exposes
    set_processing, set_processed, set_error(location, message), set_axiom,
    unhighlight, has_error").  The constructor allocates a fresh object
    without highlight; a setter records the status of the object and hands
    one highlighting action to [handle_action]. *)
Module SentenceM.

Definition new (sregion : Region) (sid : Z) : M STM Sentence :=
  x <- get ;;
  modify (set_next_obj S) ;;
  ret (mkSentence (next_obj x) sregion sid).

Definition highlight (s : Sentence) (st : Status) : M STM unit :=
  modify (set_store <[obj s := st]>) ;;
  handle_action (HlSentence s st).

Definition set_processing (s : Sentence) : M STM unit := highlight s StProcessing.
Definition set_processed (s : Sentence) : M STM unit := highlight s StProcessed.
Definition set_axiom (s : Sentence) : M STM unit := highlight s StAxiom.
Definition set_error (s : Sentence) (location : Location) (message : string) : M STM unit :=
  highlight s (StError location message).

Definition unhighlight (s : Sentence) : M STM unit :=
  modify (set_store (delete (obj s))) ;;
  handle_action (UnhlSentence s).

Definition has_error (x : STM) (s : Sentence) : bool :=
  match store x !! obj s with
  | Some (StError _ _) => true
  | _ => false
  end.

End SentenceM.

(** [if x:] on an optional state id: [None] and [0] are false. *)
Definition truthy (v : option Z) : bool :=
  match v with
  | Some n => negb (n =? 0)
  | None => false
  end.

(** [d[k]] where the key itself may be [None], which no sentence has. *)
Definition state_id_map_getitem (d : _Document) (k : option Z) : outcome Sentence :=
  match k with
  | Some k' => Document.dict_getitem (state_id_map d) k'
  | None => Raise KeyError
  end.

(** [STM.__init__] *)
Definition STM_init (bufnr : Z) : STM :=
  mkSTM Document.init None None TaskThread.init bufnr None ∅ 0%nat [] [].

Definition schedule (task : Task) : M STM unit :=
  on_task_thread (TaskThread.schedule task).
Definition done : M STM unit := on_task_thread TaskThread.done.

(** [STM._clear_failed_sentence] *)
Definition _clear_failed_sentence : M STM unit :=
  x <- get ;;
  match _failed_sentence x with
  | Some s => SentenceM.unhighlight s ;; modify (set_failed_sentence None)
  | None => ret tt
  end.

(** [STM._tip_state_id] *)
Definition _tip_state_id : M STM (option Z) :=
  x <- get ;;
  match _tip_sentence x with
  | Some t => ret (Some (state_id t))
  | None =>
      if Document.bool_ (_doc x) then
        s <- lift (py_getitem (sentences (_doc x)) (-1)) ;;
        ret (Some (state_id s))
      else ret (_init_state_id x)
  end.

(** The callback built by [STM._make_on_lost_cb]. *)
Definition on_lost : M STM unit :=
  _finally_call done (
    on_task_thread TaskThread.discard_scheduled_tasks ;;
    x <- get ;;
    for_each (sentences (_doc x)) SentenceM.unhighlight ;;
    on_doc Document.clear ;;
    x' <- get ;;
    handle_action (ConnLost (_bufnr x'))).

(** [on_res] of [STM.init] *)
Definition on_init_res (res : InitRes) : M STM unit :=
  _finally_call done (
    match init_error res with
    | None => modify (set_init_state_id (init_state_id res))
    | Some err => raise (RuntimeError (err_message err))
    end).

(** [on_res] of [STM._forward_one] *)
Definition on_add_res (sregion : Region) (res : AddRes) : M STM unit :=
  _finally_call done (
    match add_error res with
    | None =>
        sentence <- SentenceM.new sregion (new_state_id res) ;;
        x <- get ;;
        on_doc (Document.add sentence (_tip_sentence x)) ;;
        SentenceM.set_processing sentence ;;
        handle_action (ShowMessage (add_message res) "info") ;;
        if truthy (next_state_id res) then
          x' <- get ;;
          t <- lift (state_id_map_getitem (_doc x') (next_state_id res)) ;;
          modify (set_tip_sentence (Some t))
        else modify (set_tip_sentence None)
    | Some err =>
        on_task_thread TaskThread.discard_scheduled_tasks ;;
        sentence <- SentenceM.new sregion 0 ;;
        modify (set_failed_sentence (Some sentence)) ;;
        SentenceM.set_error sentence (err_location err) (err_message err)
    end).

(** [STM._backward_before_index], up to the call of [call_async]; the
    response is handled by [on_edit_at_res] with the captured [index]. *)
Definition _backward_before_index (index : Z) : M STM unit :=
  x <- get ;;
  sid <- (if decide (index = 0) then ret (_init_state_id x)
          else s <- lift (py_getitem (sentences (_doc x)) (index - 1)) ;;
               ret (Some (state_id s))) ;;
  _clear_failed_sentence ;;
  call_async (EditAtReq sid) (OnEditAtRes index).

(** [on_res] of [STM._backward_before_index] *)
Definition on_edit_at_res (index : Z) (res : EditAtRes) : M STM unit :=
  match edit_error res with
  | None =>
      (if negb (focused res) then
         x <- get ;;
         for_each (py_slice (sentences (_doc x)) (Slice (Some index) None))
                  SentenceM.unhighlight ;;
         on_doc (Document.remove_by_index (Slice (Some index) None)) ;;
         modify (set_tip_sentence None)
       else
         x <- get ;;
         qed_sentence <- lift (state_id_map_getitem (_doc x) (qed res)) ;;
         qed_index <- lift (py_index (sentences (_doc x)) qed_sentence) ;;
         let sl := Slice (Some index) (Some (Z.of_nat qed_index + 1)) in
         for_each (py_slice (sentences (_doc x)) sl) SentenceM.unhighlight ;;
         on_doc (Document.remove_by_index sl) ;;
         x' <- get ;;
         t <- lift (py_getitem (sentences (_doc x')) (index - 1)) ;;
         modify (set_tip_sentence (Some t))) ;;
      done
  | Some err =>
      handle_action (ShowMessage (err_message err) "error") ;;
      x <- get ;;
      sentence <- lift (Document.dict_getitem (state_id_map (_doc x)) (err_state_id err)) ;;
      sindex <- lift (py_index (sentences (_doc x)) sentence) ;;
      _backward_before_index (Z.of_nat sindex + 1)
  end.

(** [on_res] of [STM._update_goal] *)
Definition on_goal_res (res : GoalRes) : M STM unit :=
  _finally_call done (
    match goal_error res with
    | None => handle_action (ShowGoals (goals res))
    | Some _ => ret tt
    end).

(** [STM._forward_one], [STM._update_goal], [STM._edit_at_current_state] *)
Definition _forward_one (sregion : Region) : M STM unit :=
  schedule (TaskForwardOne sregion).
Definition _update_goal : M STM unit := schedule TaskGetGoals.
Definition _edit_at_current_state : M STM unit := schedule TaskEditAtCurrentState.

(** [self._doc and self._doc.sentences[-1].has_error()] *)
Definition last_has_error : M STM bool :=
  x <- get ;;
  if Document.bool_ (_doc x) then
    s <- lift (py_getitem (sentences (_doc x)) (-1)) ;;
    ret (SentenceM.has_error x s)
  else ret false.

(** [STM.init] *)
Definition init : M STM unit := schedule TaskInit.

(** [STM.forward] *)
Definition forward (sregion : Region) : M STM unit :=
  b <- last_has_error ;;
  if (b : bool) then handle_action (ShowMessage "Fix the error first" "error")
  else _forward_one sregion ;; _update_goal.

(** [STM.forward_many] *)
Definition forward_many (sregions : list Region) : M STM unit :=
  b <- last_has_error ;;
  if (b : bool) then handle_action (ShowMessage "Fix the error first." "error")
  else for_each sregions _forward_one ;; _update_goal.

(** [STM.backward] *)
Definition backward : M STM unit :=
  schedule TaskBackward ;; _update_goal.

(** [STM.backward_before_mark] *)
Definition backward_before_mark (mark : Mark) : M STM unit :=
  schedule (TaskBackwardBeforeMark mark) ;; _update_goal.

(** The first position whose sentence stops strictly after [mark]. *)
Definition stops_after (mark : Mark) (s : Sentence) : bool :=
  let stop_ := stop (region s) in
  bool_decide (line stop_ > line mark) ||
  (bool_decide (line stop_ = line mark) && bool_decide (col stop_ > col mark)).

Fixpoint first_stop_after (mark : Mark) (i : nat) (l : list Sentence) : option nat :=
  match l with
  | [] => None
  | s :: l' => if stops_after mark s then Some i else first_stop_after mark (S i) l'
  end.

(** The bodies of the closures [task], run by the worker thread. *)
Definition run_task (t : Task) : M STM unit :=
  match t with
  | TaskInit => call_async InitReq OnInitRes
  | TaskForwardOne sregion =>
      _clear_failed_sentence ;;
      sid <- _tip_state_id ;;
      call_async (AddReq (command sregion) (-1) sid false) (OnAddRes sregion)
  | TaskBackward =>
      x <- get ;;
      if Document.bool_ (_doc x) then
        _backward_before_index (Z.of_nat (length (sentences (_doc x))) - 1)
      else done
  | TaskBackwardBeforeMark mark =>
      x <- get ;;
      match first_stop_after mark 0 (sentences (_doc x)) with
      | Some i => _backward_before_index (Z.of_nat i)
      | None => done
      end
  | TaskEditAtCurrentState =>
      x <- get ;;
      _backward_before_index (Z.of_nat (Document.len (_doc x)))
  | TaskGetGoals => call_async GoalReq OnGoalRes
  end.

(** One turn of [thread_main] up to the wait on the semaphore: take the
    next task off the queue and run it. *)
Definition thread_run_next : M STM unit :=
  x <- get ;;
  match _schedule_queue (_task_thread x) with
  | [] => ret tt
  | t :: q =>
      modify (set_task_thread (λ th, mkTaskThread (_closing th) (_scheduled_task_count th)
                                                  q (task_done th))) ;;
      if _closing (_task_thread x) then ret tt else run_task t
  end.

(** The rest of the turn, once [done] has released the semaphore; until
    then the thread waits. *)
Definition thread_task_finished : M STM unit :=
  modify (set_task_thread (λ th,
    match task_done th with
    | O => th
    | S n => mkTaskThread (_closing th) (_scheduled_task_count th - 1) (_schedule_queue th) n
    end)).

(** [STM.get_last_stop], [STM.get_tip_stop], [STM.is_busy] *)
Definition get_last_stop (x : STM) : Mark :=
  match last (sentences (_doc x)) with
  | Some s => stop (region s)
  | None => mkMark 1 1
  end.

Definition get_tip_stop (x : STM) : Mark :=
  match _tip_sentence x with
  | Some t => stop (region t)
  | None => get_last_stop x
  end.

Definition is_busy (x : STM) : bool :=
  bool_decide (TaskThread.scheduled_task_count (_task_thread x) > 0).

(** [STM.close], from the state in which [shutdown_join] returns: the
    closing flag is set, the sentences are un-highlighted and the document
    is cleared.  The sentinel [(None, None)] that [put_nowait] leaves on a
    queue with room and the wait for the worker thread are not modelled, so
    the queue and the count of this state are those of the call, not those
    the worker thread leaves behind. *)
Definition close : M STM unit :=
  modify (set_task_thread (λ th, mkTaskThread true (_scheduled_task_count th)
                                              (_schedule_queue th) (task_done th))) ;;
  x <- get ;;
  for_each (sentences (_doc x)) SentenceM.unhighlight ;;
  on_doc Document.clear.

(** ** _FeedbackHandler

    The handler holds [self._doc.state_id_map], the very dict the document
    mutates in place, so it reads the map of the current state. *)
Module FeedbackHandler.

Definition _on_error_msg (error_msg : FeedbackContent) (sentence : option Sentence) : M STM unit :=
  match sentence with
  | Some s => SentenceM.set_error s (fb_location error_msg) (fb_message error_msg)
  | None => handle_action (ShowMessage (fb_message error_msg) "error")
  end.

Definition _on_message (message : FeedbackContent) (sentence : option Sentence) : M STM unit :=
  if decide (fb_level message = "error") then
    match sentence with
    | Some s => SentenceM.set_error s (fb_location message) (fb_message message)
    | None => handle_action (ShowMessage (fb_message message) "error")
    end
  else handle_action (ShowMessage (fb_message message) (fb_level message)).

Definition _on_processed (_ : FeedbackContent) (sentence : option Sentence) : M STM unit :=
  match sentence with
  | Some s => SentenceM.set_processed s
  | None => ret tt
  end.

Definition _on_added_axiom (_ : FeedbackContent) (sentence : option Sentence) : M STM unit :=
  match sentence with
  | Some s => SentenceM.set_axiom s
  | None => ret tt
  end.

Definition _FEEDBACK_HANDLERS
  : list (FbClass * (FeedbackContent → option Sentence → M STM unit)) :=
  [ (ErrorMsgT, _on_error_msg);
    (MessageT, _on_message);
    (ProcessedT, _on_processed);
    (AddedAxiomT, _on_added_axiom) ].

(** The [for] loop of [__call__]. *)
Fixpoint dispatch (table : list (FbClass * (FeedbackContent → option Sentence → M STM unit)))
         (c : FeedbackContent) (sentence : option Sentence) : M STM bool :=
  match table with
  | [] => ret false
  | (fb_type, handler) :: table' =>
      if isinstance c fb_type then handler c sentence ;; ret true
      else dispatch table' c sentence
  end.

(** [self._state_id_map.get(feedback.state_id, None)] *)
Definition lookup_sentence (x : STM) (feedback : Feedback) : option Sentence :=
  match fb_state_id feedback with
  | Some k => state_id_map (_doc x) !! k
  | None => None
  end.

(** [_FeedbackHandler.__call__] *)
Definition __call__ (feedback : Feedback) : M STM bool :=
  x <- get ;;
  dispatch _FEEDBACK_HANDLERS (content feedback) (lookup_sentence x feedback).

End FeedbackHandler.

(** ** Specification-side definitions *)

(** The well-formedness of a document, stated on its three components so
    that the loop of [remove_by_index], which empties the two maps before it
    touches the sequence, can carry it over a shrinking list. *)
Record wf (L : list Sentence) (m : gmap Z Sentence) (lm : gmap Z (list Sentence)) : Prop := mkWf {
  wf_nodup : NoDup L;
  wf_map_of_seq : ∀ s, s ∈ L → m !! state_id s = Some s;
  wf_seq_of_map : ∀ k s, m !! k = Some s → s ∈ L ∧ state_id s = k;
  wf_lines_of_seq : ∀ s ln, s ∈ L → ln ∈ sentence_lines s →
                    ∃ l, lm !! ln = Some l ∧ s ∈ l;
  wf_seq_of_lines : ∀ ln l, lm !! ln = Some l →
                    NoDup l ∧ ∀ s, s ∈ l → s ∈ L ∧ ln ∈ sentence_lines s
}.

Definition doc_wf (d : _Document) : Prop :=
  wf (sentences d) (state_id_map d) (line_map d).

(** The mutating operations of [_Document] that stm.py calls. *)
Inductive DocOp : Type :=
  | OpAdd (sentence : Sentence) (tip : option Sentence)
  | OpRemoveByIndex (index_slice : slice)
  | OpClear.

Definition run_op (op : DocOp) : M _Document unit :=
  match op with
  | OpAdd sentence tip => Document.add sentence tip
  | OpRemoveByIndex sl => Document.remove_by_index sl
  | OpClear => Document.clear
  end.

(** An added sentence carries a state id that no present sentence has. *)
Definition op_pre (d : _Document) (op : DocOp) : Prop :=
  match op with
  | OpAdd sentence _ => state_id_map d !! state_id sentence = None
  | _ => True
  end.

(** The documents reachable from the empty one; a step that raises counts
    with the state it leaves behind. *)
Inductive reachable : _Document → Prop :=
  | reachable_init : reachable Document.init
  | reachable_step d op o d' :
      reachable d → op_pre d op → run_op op d = (o, d') → reachable d'.

(** A run of operations from a document, for building concrete ones. *)
Definition run_ops (ops : list DocOp) (d : _Document) : _Document :=
  foldl (λ d op, (run_op op d).2) d ops.

Fixpoint ops_pre (ops : list DocOp) (d : _Document) : Prop :=
  match ops with
  | [] => True
  | op :: ops' => op_pre d op ∧ ops_pre ops' (run_op op d).2
  end.

(** The position [add] inserts at. *)
Definition add_position (d : _Document) (tip : option Sentence) : outcome nat :=
  match tip with
  | Some t => match py_index (sentences d) t with
              | Ok i => Ok (i + 1)%nat
              | Raise e => Raise e
              end
  | None => Ok (length (sentences d))
  end.

(** The state after [for s in xs: s.unhighlight(handle_action)]. *)
Definition unhighlighted (xs : list Sentence) (x : STM) : STM :=
  mkSTM (_doc x) (_failed_sentence x) (_init_state_id x) (_task_thread x)
        (_bufnr x) (_tip_sentence x)
        (foldl (λ st s, delete (obj s) st) (store x) xs) (next_obj x)
        (actions x ++ (UnhlSentence <$> xs)) (requests x).

(** The predecessor state id in priority order: the tip, else the last
    sentence, else the initial state id. *)
Definition predecessor_state_id (x : STM) : option Z :=
  match _tip_sentence x with
  | Some t => Some (state_id t)
  | None =>
      match last (sentences (_doc x)) with
      | Some s => Some (state_id s)
      | None => _init_state_id x
      end
  end.

(** The position of the sentence that holds a state id. *)
Definition holder_position (ss : list Sentence) (sid : Z) : option nat :=
  fst <$> list_find (λ s, state_id s = sid) ss.

(** A state id is live when a sentence of the sequence holds it. *)
Definition live (d : _Document) (k : option Z) : Prop :=
  ∃ s, s ∈ sentences d ∧ k = Some (state_id s).

(** The callback of the request sent last: the exchange in flight. *)
Definition pending_callback (x : STM) : option Callback :=
  snd <$> last (requests x).

(** The checker answers the EditAt exchange in flight with an error, once
    per element of [errs]; each answer runs the callback that the request
    was sent with. *)
Fixpoint deliver_edit_at_errors (errs : list ErrorInfo) : M STM unit :=
  match errs with
  | [] => ret tt
  | e :: errs' =>
      x <- get ;;
      match pending_callback x with
      | Some (OnEditAtRes index) =>
          on_edit_at_res index (mkEditAtRes (Some e) false None) ;;
          deliver_edit_at_errors errs'
      | _ => ret tt
      end
  end.

(** The indices [_backward_before_index] was called with, read off the
    requests it sent. *)
Definition edit_at_indices (log : list (Request * Callback)) : list Z :=
  omap (λ p, match p.2 with OnEditAtRes i => Some i | _ => None end) log.

(** Each reported state id is held by a sentence strictly before the
    predecessor [index - 1] of the index being retried. *)
Fixpoint chain_pre (ss : list Sentence) (index : Z) (errs : list ErrorInfo) : Prop :=
  match errs with
  | [] => True
  | e :: errs' =>
      ∃ p, holder_position ss (err_state_id e) = Some p ∧
           Z.of_nat p < index - 1 ∧
           chain_pre ss (Z.of_nat p + 1) errs'
  end.

(** One past the position of the holder of each reported state id. *)
Definition retried_indices (ss : list Sentence) (errs : list ErrorInfo) : list Z :=
  omap (λ e, (λ p, Z.of_nat p + 1) <$> holder_position ss (err_state_id e)) errs.

Definition is_conn_lost (a : Action) : bool :=
  match a with ConnLost _ => true | _ => false end.

(** Tip consistency as the specification words it: after a successful Add
    exchange the next predecessor is [next_state_id] when present and
    [new_state_id] otherwise. *)
Definition tip_consistency_as_stated : Prop :=
  ∀ x sregion res x',
    reachable (_doc x) →
    state_id_map (_doc x) !! new_state_id res = None →
    add_error res = None →
    on_add_res sregion res x = (Ok tt, x') →
    (_tip_state_id x').1 =
      Ok (Some (default (new_state_id res) (next_state_id res))).

(** The state after [_clear_failed_sentence]. *)
Definition failed_cleared (x : STM) : STM :=
  match _failed_sentence x with
  | Some s =>
      set_failed_sentence None
        (set_actions (λ l, l ++ [UnhlSentence s]) (set_store (delete (obj s)) x))
  | None => x
  end.

(** The state after [self._task_thread.discard_scheduled_tasks()]. *)
Definition discarded (x : STM) : STM :=
  set_task_thread (λ t, mkTaskThread (_closing t)
                     (_scheduled_task_count t - Z.of_nat (length (_schedule_queue t)))
                     [] (task_done t)) x.

(** The state after a setter of [Sentence] gave [s] the status [st]. *)
Definition highlighted (s : Sentence) (st : Status) (x : STM) : STM :=
  set_actions (λ l, l ++ [HlSentence s st]) (set_store <[obj s := st]> x).

(** The state after [handle_action(a)]. *)
Definition notified (a : Action) (x : STM) : STM :=
  set_actions (λ l, l ++ [a]) x.

(** The state after [done()]. *)
Definition done_called (x : STM) : STM :=
  set_task_thread (λ t, mkTaskThread (_closing t) (_scheduled_task_count t)
                     (_schedule_queue t) (S (task_done t))) x.

(** The state of [on_add_res] on a success, once the new sentence is in the
    document [d'] and before the tip is set. *)
Definition added (s : Sentence) (d' : _Document) (message : string) (x : STM) : STM :=
  notified (ShowMessage message "info")
    (highlighted s StProcessing (set_doc (λ _, d') (set_next_obj S x))).

(** *** Concrete states *)

Definition rA : Region := mkRegion (mkMark 1 1) (mkMark 1 18) "first".
Definition rB : Region := mkRegion (mkMark 2 1) (mkMark 3 12) "second".
Definition rC : Region := mkRegion (mkMark 3 14) (mkMark 3 20) "third".
Definition rD : Region := mkRegion (mkMark 2 1) (mkMark 2 7) "fourth".

Definition sA : Sentence := mkSentence 0 rA 2.
Definition sB : Sentence := mkSentence 1 rB 3.
Definition sC : Sentence := mkSentence 2 rC 4.

Definition doc_ABC : _Document :=
  run_ops [OpAdd sA None; OpAdd sB None; OpAdd sC None] Document.init.

Definition add_ok (new : Z) (next : option Z) : AddRes := mkAddRes None new next "".

(** Init answered with state id 1, then three sentences added with the
    state ids 2, 3 and 4. *)
Definition stm_ABC : STM :=
  ((on_init_res (mkInitRes None (Some 1)) ;;
    on_add_res rA (add_ok 2 None) ;;
    on_add_res rB (add_ok 3 None) ;;
    on_add_res rC (add_ok 4 None)) (STM_init 1)).2.

(** From there a rollback before index 1 that the checker reports as
    focused with closing state 3: the second sentence goes, the tip is the first
    and the third stays behind it. *)
Definition stm_focused : STM :=
  ((_backward_before_index 1 ;;
    on_edit_at_res 1 (mkEditAtRes None true (Some 3))) stm_ABC).2.

Definition error_feedback (message : string) : FeedbackContent :=
  mkContent (λ t, bool_decide (t = ErrorMsgT)) None message "".

(** [stm_ABC] after an error feedback on the state id of its last sentence. *)
Definition stm_errored : STM :=
  (FeedbackHandler.__call__ (mkFeedback (Some 4) (error_feedback "rejected")) stm_ABC).2.

(** *** The STM as a transition system *)

(** What happens to an STM: calls of its public methods, turns of the worker
    thread, responses of the checker, loss of the connection, feedback. *)
Inductive Event : Type :=
  | CallInit
  | CallForward (sregion : Region)
  | CallForwardMany (sregions : list Region)
  | CallBackward
  | CallBackwardBeforeMark (mark : Mark)
  | CallClose
  | ThreadRunNext
  | ThreadTaskFinished
  | InitResponse (res : InitRes)
  | AddResponse (sregion : Region) (res : AddRes)
  | EditAtResponse (index : Z) (res : EditAtRes)
  | GoalResponse (res : GoalRes)
  | ConnectionLost
  | FeedbackArrives (feedback : Feedback).

Definition handle (ev : Event) : M STM unit :=
  match ev with
  | CallInit => init
  | CallForward sregion => forward sregion
  | CallForwardMany sregions => forward_many sregions
  | CallBackward => backward
  | CallBackwardBeforeMark mark => backward_before_mark mark
  | CallClose => close
  | ThreadRunNext => thread_run_next
  | ThreadTaskFinished => thread_task_finished
  | InitResponse res => on_init_res res
  | AddResponse sregion res => on_add_res sregion res
  | EditAtResponse index res => on_edit_at_res index res
  | GoalResponse res => on_goal_res res
  | ConnectionLost => on_lost
  | FeedbackArrives feedback => _ <- FeedbackHandler.__call__ feedback ;; ret tt
  end.

(** The one assumption on the checker: the state id of an accepted sentence
    is not held by a sentence of the document. *)
Definition event_pre (x : STM) (ev : Event) : Prop :=
  match ev with
  | AddResponse _ res =>
      add_error res = None → state_id_map (_doc x) !! new_state_id res = None
  | _ => True
  end.

(** The states of an STM created by [STM(bufnr)]; a handler that raises
    leaves the state it had reached. *)
Inductive stm_reachable (bufnr : Z) : STM → Prop :=
  | stm_reachable_init : stm_reachable bufnr (STM_init bufnr)
  | stm_reachable_step x ev o x' :
      stm_reachable bufnr x → event_pre x ev → handle ev x = (o, x') →
      stm_reachable bufnr x'.

(** The document is a reachable one; every sentence object in use was
    allocated; the failed sentence is not in the document. *)
Record stm_inv (x : STM) : Prop := mkStmInv {
  inv_doc : reachable (_doc x);
  inv_objs : ∀ s, s ∈ sentences (_doc x) → (obj s < next_obj x)%nat;
  inv_failed : ∀ s, _failed_sentence x = Some s →
               (obj s < next_obj x)%nat ∧ s ∉ sentences (_doc x);
  inv_tip : ∀ t, _tip_sentence x = Some t → (obj t < next_obj x)%nat
}.

(** A computation that leaves the document, the allocation counter, the
    failed sentence and the tip alone. *)
Definition keeps {A} (m : M STM A) : Prop :=
  ∀ x o x', m x = (o, x') →
    _doc x' = _doc x ∧ next_obj x' = next_obj x ∧
    _failed_sentence x' = _failed_sentence x ∧ _tip_sentence x' = _tip_sentence x.

(** A sentence with a state id not yet in [doc_ABC]. *)
Definition sD : Sentence := mkSentence 3 rD 5.

(** A computation that leaves one observation of the state alone. *)
Definition preserves {A T} (f : STM → T) (m : M STM A) : Prop :=
  ∀ x o x', m x = (o, x') → f x' = f x.

(** The order of marks: by line, then by column. *)
Definition mark_lt (m1 m2 : Mark) : Prop :=
  line m1 < line m2 ∨ (line m1 = line m2 ∧ col m1 < col m2).

(** The state id an EditAt request before position [i] targets. *)
Definition edit_at_target (x : STM) (i : nat) : option Z :=
  match i with
  | O => _init_state_id x
  | S j => state_id <$> sentences (_doc x) !! j
  end.

(** The state after [call_async(req, on_res, ...)]. *)
Definition sent (req : Request) (cb : Callback) (x : STM) : STM :=
  set_requests (λ l, l ++ [(req, cb)]) x.

(** The capacity of the queue of the task thread: [queue.Queue(100)]. *)
Definition queue_maxsize : nat := 100.

(** The queue holds no more than it can, and has room for [k] further
    entries: the next [k] calls of [Queue.put] return at once, whatever the
    worker thread takes off in between. *)
Definition has_room (k : nat) (x : STM) : Prop :=
  (length (_schedule_queue (_task_thread x)) + k ≤ queue_maxsize)%nat.

(** The state after the tasks [ts] were scheduled, in that order. *)
Definition scheduled (ts : list Task) (x : STM) : STM :=
  set_task_thread (λ th, mkTaskThread (_closing th)
                     (_scheduled_task_count th + Z.of_nat (length ts))
                     (_schedule_queue th ++ ts) (task_done th)) x.

(** Whether the document is not empty and its last sentence has error
    status. *)
Definition last_errored (x : STM) : bool :=
  match last (sentences (_doc x)) with
  | Some s => SentenceM.has_error x s
  | None => false
  end.

(** ** Properties *)

(** *** The monad *)

Lemma for_each_app {S A} (xs ys : list A) (body : A → M S unit) (s : S) :
  for_each (xs ++ ys) body s =
  match for_each xs body s with
  | (Ok _, s') => for_each ys body s'
  | (Raise e, s') => (Raise e, s')
  end.
Proof.
  revert s. induction xs as [|x xs IH]; intros s; simpl; [done|].
  unfold bind. destruct (body x s) as [[[]|e] s1]; [apply IH|done].
Qed.

Lemma bind_get {S B} (k : S → M S B) (s : S) : bind get k s = k s s.
Proof. reflexivity. Qed.

Lemma bind_Ok {S A B} (m : M S A) (k : A → M S B) (s s' : S) (a : A) :
  m s = (Ok a, s') → bind m k s = k a s'.
Proof. intros E. unfold bind. by rewrite E. Qed.

Lemma bind_Raise {S A B} (m : M S A) (k : A → M S B) (s s' : S) (e : exn) :
  m s = (Raise e, s') → bind m k s = (Raise e, s').
Proof. intros E. unfold bind. by rewrite E. Qed.

Lemma bind_lift {S A B} (o : outcome A) (k : A → M S B) (s : S) :
  bind (lift o) k s = match o with Ok a => k a s | Raise e => (Raise e, s) end.
Proof. by destruct o. Qed.

Lemma bind_modify {S B} (f : S → S) (k : unit → M S B) (s : S) :
  bind (modify f) k s = k tt (f s).
Proof. reflexivity. Qed.

Lemma bind_ret {S A B} (a : A) (k : A → M S B) (s : S) : bind (ret a) k s = k a s.
Proof. reflexivity. Qed.

(** *** Python lists *)

Section py_list_facts.
Context {A : Type} `{EqDecision A}.
Implicit Types l : list A.

Lemma py_index_Ok l x i :
  py_index l x = Ok i ↔ l !! i = Some x ∧ ∀ j, (j < i)%nat → l !! j ≠ Some x.
Proof.
  revert i. induction l as [|y l IH]; intros i; simpl.
  - split; [done|]. intros [? _]. done.
  - destruct (decide (y = x)) as [->|Hne].
    + split.
      * intros [= <-]. split; [done|]. intros j Hj. lia.
      * intros [Hi Hlt]. destruct i as [|i]; [done|].
        exfalso. apply (Hlt 0%nat); [lia|done].
    + destruct (py_index l x) as [i'|e].
      * split.
        -- intros [= <-]. destruct (IH i') as [[E1 E2] _]; [done|].
           split; [done|].
           intros [|j] Hj; simpl; [congruence|]. apply E2. lia.
        -- intros [Hi Hlt]. destruct i as [|i]; simpl in Hi; [congruence|].
           f_equal. f_equal. destruct (IH i) as [_ IH2].
           assert (Ok i' = Ok i) as [= ->]; [|done].
           apply IH2. split; [done|].
           intros j Hj. apply (Hlt (S j)). lia.
      * split; [done|]. intros [Hi Hlt].
        destruct i as [|i]; simpl in Hi; [congruence|].
        assert (Raise e = Ok i) as Hc; [|done].
        apply IH. split; [done|]. intros j Hj. apply (Hlt (S j)). lia.
Qed.

Lemma py_index_elem_of l x : x ∈ l → ∃ i, py_index l x = Ok i.
Proof.
  induction l as [|y l IH]; [by intros ?%elem_of_nil|].
  intros Hin. simpl. destruct (decide (y = x)); [eauto|].
  apply elem_of_cons in Hin as [->|Hin]; [done|].
  destruct (IH Hin) as [i ->]. eauto.
Qed.

Lemma py_index_not_elem_of l x : x ∉ l → py_index l x = Raise ValueError.
Proof.
  induction l as [|y l IH]; [done|].
  intros Hin. simpl. apply not_elem_of_cons in Hin as [? Hin].
  destruct (decide (y = x)); [done|]. by rewrite IH.
Qed.

Lemma py_index_NoDup l x i : NoDup l → l !! i = Some x → py_index l x = Ok i.
Proof.
  intros Hnd Hi. apply py_index_Ok. split; [done|].
  intros j Hj Hjx. assert (j = i) by (eapply NoDup_lookup; eauto). lia.
Qed.

Lemma py_remove_elem_of l x :
  NoDup l → x ∈ l →
  ∃ l', py_remove l x = Ok l' ∧ NoDup l' ∧ (∀ y, y ∈ l' ↔ y ∈ l ∧ y ≠ x) ∧
        l ≡ₚ x :: l'.
Proof.
  induction l as [|y l IH]; [by intros _ ?%elem_of_nil|].
  intros [Hy Hnd]%NoDup_cons Hin. simpl.
  destruct (decide (y = x)) as [->|Hne].
  - exists l. split_and!; [done..| |done].
    intros z. rewrite elem_of_cons. split; [|tauto].
    intros Hz. split; [tauto|]. by intros ->.
  - apply elem_of_cons in Hin as [->|Hin]; [done|].
    destruct (IH Hnd Hin) as (l' & -> & Hnd' & Hiff & Hp).
    exists (y :: l'). split_and!; [done| | |].
    + apply NoDup_cons. split; [|done]. rewrite Hiff. tauto.
    + intros z. rewrite !elem_of_cons, Hiff. split; [|tauto].
      intros [->|?]; tauto.
    + rewrite Hp. apply Permutation_swap.
Qed.

Lemma py_insert_perm l i x : py_insert l i x ≡ₚ x :: l.
Proof.
  unfold py_insert. rewrite <- Permutation_middle.
  by rewrite take_drop.
Qed.

Lemma py_slice_split l sl :
  l = take (slice_lo (length l) sl) l ++ py_slice l sl
      ++ drop (slice_lo (length l) sl `max` slice_hi (length l) sl)%nat l.
Proof.
  unfold py_slice.
  set (lo := slice_lo (length l) sl). set (hi := slice_hi (length l) sl).
  destruct (decide (lo ≤ hi)%nat) as [Hle|Hgt].
  - replace (lo `max` hi)%nat with (lo + (hi - lo))%nat by lia.
    rewrite <- drop_drop, take_drop. by rewrite take_drop.
  - replace (hi - lo)%nat with 0%nat by lia.
    replace (lo `max` hi)%nat with lo by lia.
    simpl. by rewrite take_drop.
Qed.

Lemma py_getitem_last l x : last l = Some x → py_getitem l (-1) = Ok x.
Proof.
  intros Hl. unfold py_getitem.
  assert (length l ≠ 0%nat) by (destruct l; [done|simpl; lia]).
  rewrite last_lookup in Hl.
  destruct (decide (-1 < 0)); [|lia].
  rewrite decide_True by lia.
  replace (Z.to_nat (-1 + Z.of_nat (length l))) with (pred (length l)) by lia.
  by rewrite Hl.
Qed.

Lemma py_getitem_nonneg l (i : nat) x :
  l !! i = Some x → py_getitem l (Z.of_nat i) = Ok x.
Proof.
  intros Hi. unfold py_getitem. apply lookup_lt_Some in Hi as Hlt.
  destruct (decide (Z.of_nat i < 0)); [lia|].
  rewrite decide_True by lia.
  by rewrite Nat2Z.id, Hi.
Qed.
End py_list_facts.

(** *** _Document: the operations in closed form *)

Ltac run := unfold bind, get, gets, modify, lift, ret, raise; simpl.

Lemma py_range_NoDup a b : NoDup (py_range a b).
Proof. apply NoDup_seqZ. Qed.

Lemma wf_perm L L' m lm : L ≡ₚ L' → wf L m lm → wf L' m lm.
Proof.
  intros HP [H1 H2 H3 H4 H5]. split.
  - by rewrite <- HP.
  - intros s Hs. apply H2. by rewrite HP.
  - intros k s Hk. destruct (H3 k s Hk). split; [by rewrite <- HP|done].
  - intros s ln Hs. apply H4. by rewrite HP.
  - intros ln l Hl. destruct (H5 ln l Hl) as [Hnd Hin]. split; [done|].
    intros s Hs. destruct (Hin s Hs). split; [by rewrite <- HP|done].
Qed.

Lemma wf_size L m lm : wf L m lm → size m = length L.
Proof.
  intros [H1 H2 H3 _ _].
  assert (dom m = list_to_set (state_id <$> L)) as Hdom.
  { apply set_eq. intros k. rewrite elem_of_dom, elem_of_list_to_set, list_elem_of_fmap.
    split.
    - intros [s Hs]. destruct (H3 k s Hs) as [? <-]. eauto.
    - intros (s & -> & Hs). rewrite (H2 s Hs). eauto. }
  rewrite <- size_dom, Hdom, size_list_to_set, length_fmap; [done|].
  apply NoDup_fmap_2_strong; [|done].
  intros s1 s2 Hs1 Hs2 Heq. apply H2 in Hs1, Hs2. congruence.
Qed.

Lemma wf_init : doc_wf Document.init.
Proof.
  split; simpl.
  - constructor.
  - by intros s ?%elem_of_nil.
  - intros k s Hk. by rewrite lookup_empty in Hk.
  - by intros s ln ?%elem_of_nil.
  - intros ln l Hl. by rewrite lookup_empty in Hl.
Qed.

Lemma add_lines_run s lns d :
  NoDup lns →
  ∃ d', for_each lns (Document.add_line s) d = (Ok tt, d') ∧
        sentences d' = sentences d ∧ state_id_map d' = state_id_map d ∧
        ∀ ln, line_map d' !! ln =
              if decide (ln ∈ lns) then Some (default [] (line_map d !! ln) ++ [s])
              else line_map d !! ln.
Proof.
  revert d. induction lns as [|x lns IH]; intros d Hnd.
  - exists d. split_and!; done.
  - apply NoDup_cons in Hnd as [Hx Hnd].
    set (d1 := set_line_map <[x := default [] (line_map d !! x) ++ [s]]> d).
    assert (Document.add_line s x d = (Ok tt, d1)) as Hstep.
    { unfold Document.add_line. run. subst d1.
      destruct (line_map d !! x); reflexivity. }
    destruct (IH d1 Hnd) as (d' & Hrun & Hs & Hm & Hl).
    exists d'. split_and!; try done.
    + simpl. unfold bind. by rewrite Hstep.
    + intros ln. rewrite Hl. subst d1. simpl.
      destruct (decide (ln = x)) as [->|Hne].
      * rewrite decide_False by done. rewrite decide_True by apply list_elem_of_here.
        by rewrite lookup_insert_eq.
      * rewrite lookup_insert_ne by done.
        destruct (decide (ln ∈ lns)) as [Hin|Hnin].
        -- rewrite decide_True; [done|]. by apply list_elem_of_further.
        -- rewrite decide_False; [done|]. rewrite elem_of_cons. tauto.
Qed.

Lemma add_run s tip d :
  match add_position d tip with
  | Raise e => Document.add s tip d = (Raise e, d)
  | Ok index =>
      ∃ d', Document.add s tip d = (Ok tt, d') ∧
            sentences d' = py_insert (sentences d) index s ∧
            state_id_map d' = <[state_id s := s]> (state_id_map d) ∧
            ∀ ln, line_map d' !! ln =
                  if decide (ln ∈ sentence_lines s)
                  then Some (default [] (line_map d !! ln) ++ [s])
                  else line_map d !! ln
  end.
Proof.
  unfold add_position, Document.add.
  assert (∀ index,
    ∃ d', (modify (set_sentences (λ l, py_insert l index s)) ;;
           modify (set_state_id_map <[state_id s := s]>) ;;
           for_each (sentence_lines s) (Document.add_line s)) d = (Ok tt, d') ∧
          sentences d' = py_insert (sentences d) index s ∧
          state_id_map d' = <[state_id s := s]> (state_id_map d) ∧
          ∀ ln, line_map d' !! ln =
                if decide (ln ∈ sentence_lines s)
                then Some (default [] (line_map d !! ln) ++ [s])
                else line_map d !! ln) as Hrest.
  { intros index. run.
    destruct (add_lines_run s (sentence_lines s)
               (set_state_id_map <[state_id s := s]>
                 (set_sentences (λ l, py_insert l index s) d)))
      as (d' & Hrun & Hs & Hm & Hl); [apply py_range_NoDup|].
    exists d'. split_and!; done. }
  destruct tip as [t|]; run.
  - destruct (py_index (sentences d) t) as [i|e]; [|done]. apply Hrest.
  - apply Hrest.
Qed.

Lemma add_wf s tip d o d' :
  doc_wf d → state_id_map d !! state_id s = None →
  Document.add s tip d = (o, d') → doc_wf d'.
Proof.
  intros Hwf Hfresh Hrun. pose proof (add_run s tip d) as Hspec.
  destruct (add_position d tip) as [index|e].
  2:{ rewrite Hspec in Hrun. by injection Hrun as _ <-. }
  destruct Hspec as (d1 & Hrun1 & Hs & Hm & Hl).
  rewrite Hrun1 in Hrun. injection Hrun as _ <-.
  unfold doc_wf. rewrite Hs. eapply wf_perm; [symmetry; apply py_insert_perm|].
  rewrite Hm. destruct Hwf as [H1 H2 H3 H4 H5].
  assert (s ∉ sentences d) as Hs_new.
  { intros Hin. apply H2 in Hin. congruence. }
  split.
  - by apply NoDup_cons.
  - intros s' [->|Hin]%elem_of_cons; [apply lookup_insert_eq|].
    rewrite lookup_insert_ne; [by apply H2|].
    intros Heq. apply H2 in Hin. congruence.
  - intros k s' Hk. destruct (decide (state_id s = k)) as [<-|Hne].
    + rewrite lookup_insert_eq in Hk. injection Hk as <-.
      split; [apply list_elem_of_here|done].
    + rewrite lookup_insert_ne in Hk by done. destruct (H3 k s' Hk).
      split; [by apply list_elem_of_further|done].
  - intros s' ln Hin Hln. rewrite Hl.
    destruct (decide (ln ∈ sentence_lines s)) as [Hc|Hc].
    + eexists; split; [done|]. apply elem_of_cons in Hin as [->|Hin].
      * apply elem_of_app. right. apply list_elem_of_here.
      * apply elem_of_app. left. destruct (H4 s' ln Hin Hln) as (l & -> & ?). done.
    + apply elem_of_cons in Hin as [->|Hin]; [done|]. by apply H4.
  - intros ln l. rewrite Hl.
    destruct (decide (ln ∈ sentence_lines s)) as [Hc|Hc].
    + intros [= <-]. destruct (line_map d !! ln) as [l0|] eqn:El0; simpl.
      * destruct (H5 ln l0 El0) as [Hnd Hin]. split.
        -- apply NoDup_app. split_and!; [done| |apply NoDup_singleton].
           intros x Hx ->%list_elem_of_singleton. apply Hs_new. by apply Hin.
        -- intros x [Hx| ->%list_elem_of_singleton]%elem_of_app.
           ++ destruct (Hin x Hx). split; [by apply list_elem_of_further|done].
           ++ split; [apply list_elem_of_here|done].
      * split; [apply NoDup_singleton|].
        intros x ->%list_elem_of_singleton. split; [apply list_elem_of_here|done].
    + intros El. destruct (H5 ln l El) as [Hnd Hin]. split; [done|].
      intros x Hx. destruct (Hin x Hx). split; [by apply list_elem_of_further|done].
Qed.

Lemma remove_lines_run s lns d :
  NoDup lns →
  (∀ ln, ln ∈ lns → ∃ l, line_map d !! ln = Some l ∧ NoDup l ∧ s ∈ l) →
  ∃ d', for_each lns (Document.remove_line s) d = (Ok tt, d') ∧
        sentences d' = sentences d ∧ state_id_map d' = state_id_map d ∧
        (∀ ln, ln ∉ lns → line_map d' !! ln = line_map d !! ln) ∧
        (∀ ln, ln ∈ lns →
           ∃ l l', line_map d !! ln = Some l ∧ line_map d' !! ln = Some l' ∧
                   NoDup l' ∧ ∀ x, x ∈ l' ↔ x ∈ l ∧ x ≠ s).
Proof.
  revert d. induction lns as [|x lns IH]; intros d Hnd Hall.
  - exists d. split_and!; try done. by intros ln ?%elem_of_nil.
  - apply NoDup_cons in Hnd as [Hx Hnd].
    destruct (Hall x) as (l & El & Hndl & Hsl); [apply list_elem_of_here|].
    destruct (py_remove_elem_of l s Hndl Hsl) as (l' & Erm & Hndl' & Hiff & _).
    set (d1 := set_line_map <[x := l']> d).
    assert (Document.remove_line s x d = (Ok tt, d1)) as Hstep.
    { unfold Document.remove_line, Document.dict_getitem. run.
      rewrite El. simpl. by rewrite Erm. }
    destruct (IH d1 Hnd) as (d' & Hrun & Hs & Hm & Hout & Hin).
    { intros ln Hln. subst d1. simpl. rewrite lookup_insert_ne.
      - apply Hall. by apply list_elem_of_further.
      - by intros ->. }
    exists d'. split_and!; try done.
    + simpl. unfold bind. by rewrite Hstep.
    + intros ln [Hne Hnin]%not_elem_of_cons. rewrite Hout by done.
      subst d1. simpl. by rewrite lookup_insert_ne.
    + intros ln [->|Hln]%elem_of_cons.
      * exists l, l'. split_and!; try done.
        rewrite Hout by done. subst d1. simpl. apply lookup_insert_eq.
      * destruct (Hin ln Hln) as (l0 & l0' & E0 & E0' & ? & ?).
        exists l0, l0'. split_and!; try done.
        subst d1. simpl in E0. rewrite lookup_insert_ne in E0; [done|].
        by intros ->.
Qed.

(** One turn of the outer loop of [remove_by_index]. *)
Lemma remove_one_run s L d :
  wf (s :: L) (state_id_map d) (line_map d) →
  ∃ d', (Document.del_state_id (state_id s) ;;
         for_each (sentence_lines s) (Document.remove_line s)) d = (Ok tt, d') ∧
        sentences d' = sentences d ∧
        state_id_map d' = delete (state_id s) (state_id_map d) ∧
        wf L (state_id_map d') (line_map d').
Proof.
  intros [H1 H2 H3 H4 H5]. apply NoDup_cons in H1 as [Hs H1].
  assert (state_id_map d !! state_id s = Some s) as Ems
    by (apply H2, list_elem_of_here).
  set (d0 := set_state_id_map (delete (state_id s)) d).
  destruct (remove_lines_run s (sentence_lines s) d0) as (d' & Hrun & Es & Em & Hout & Hin).
  { apply py_range_NoDup. }
  { intros ln Hln. destruct (H4 s ln) as (l & El & Hl); [apply list_elem_of_here|done|].
    exists l. split_and!; [done| |done]. by apply (H5 ln l). }
  exists d'. split_and!; try done.
  { unfold Document.del_state_id, Document.dict_getitem. run. rewrite Ems. simpl.
    exact Hrun. }
  assert (∀ s', s' ∈ L → state_id s' ≠ state_id s) as Hids.
  { intros s' Hs' Heq. assert (state_id_map d !! state_id s' = Some s') as E'
      by (by apply H2, list_elem_of_further).
    rewrite Heq in E'. congruence. }
  rewrite Em. subst d0. simpl. split.
  - done.
  - intros s' Hs'. rewrite lookup_delete_ne by (symmetry; by apply Hids).
    by apply H2, list_elem_of_further.
  - intros k s' Hk. destruct (decide (state_id s = k)) as [<-|Hne].
    { by rewrite lookup_delete_eq in Hk. }
    rewrite lookup_delete_ne in Hk by done.
    destruct (H3 k s' Hk) as [[->|Hin']%elem_of_cons Hsid]; done.
  - intros s' ln Hs' Hln.
    destruct (H4 s' ln) as (l & El & Hl); [by apply list_elem_of_further|done|].
    destruct (decide (ln ∈ sentence_lines s)) as [Hc|Hc].
    + destruct (Hin ln Hc) as (l0 & l0' & E0 & E0' & _ & Hiff). simpl in E0.
      exists l0'. split; [done|]. apply Hiff. split; [congruence|].
      intros ->. done.
    + exists l. split; [|done]. rewrite Hout by done. done.
  - intros ln l' El'. destruct (decide (ln ∈ sentence_lines s)) as [Hc|Hc].
    + destruct (Hin ln Hc) as (l0 & l0' & E0 & E0' & Hnd' & Hiff). simpl in E0.
      assert (l0' = l') as -> by congruence. split; [done|].
      intros x [Hx0 Hxs]%Hiff. destruct (H5 ln l0 E0) as [_ Hmem].
      destruct (Hmem x Hx0) as [[->|Hx]%elem_of_cons Hln]; done.
    + rewrite Hout in El' by done. simpl in El'.
      destruct (H5 ln l' El') as [Hnd Hmem]. split; [done|].
      intros x Hx. destruct (Hmem x Hx) as [[->|HxL]%elem_of_cons Hln]; done.
Qed.

Lemma remove_loop_run pre xs post d :
  wf (pre ++ xs ++ post) (state_id_map d) (line_map d) →
  ∃ d', for_each xs (λ sentence,
          Document.del_state_id (state_id sentence) ;;
          for_each (sentence_lines sentence) (Document.remove_line sentence)) d
        = (Ok tt, d') ∧
        sentences d' = sentences d ∧
        (∀ k, state_id_map d' !! k =
              if decide (k ∈ state_id <$> xs) then None else state_id_map d !! k) ∧
        wf (pre ++ post) (state_id_map d') (line_map d').
Proof.
  revert d. induction xs as [|x xs IH]; intros d Hwf.
  - exists d. split_and!; done.
  - destruct (remove_one_run x (pre ++ xs ++ post) d) as (d1 & Hstep & Es1 & Em1 & Hwf1).
    { eapply wf_perm; [|exact Hwf]. simpl. symmetry. apply Permutation_middle. }
    destruct (IH d1 Hwf1) as (d' & Hrun & Es & Em & Hwf').
    exists d'. split_and!; try done.
    + simpl. unfold bind at 1. rewrite Hstep. exact Hrun.
    + congruence.
    + intros k. rewrite Em, Em1. rewrite fmap_cons.
      destruct (decide (k ∈ state_id <$> xs)) as [Hin|Hnin].
      * rewrite decide_True; [done|]. by apply list_elem_of_further.
      * destruct (decide (k = state_id x)) as [->|Hne].
        -- rewrite decide_True by apply list_elem_of_here. apply lookup_delete_eq.
        -- rewrite decide_False by (rewrite elem_of_cons; tauto).
           by apply lookup_delete_ne.
Qed.

Lemma remove_by_index_run sl d :
  doc_wf d →
  ∃ d', Document.remove_by_index sl d = (Ok tt, d') ∧
        sentences d' = py_del_slice (sentences d) sl ∧
        (∀ k, state_id_map d' !! k =
              if decide (k ∈ state_id <$> py_slice (sentences d) sl) then None
              else state_id_map d !! k) ∧
        doc_wf d'.
Proof.
  intros Hwf. unfold doc_wf in Hwf.
  rewrite (py_slice_split (sentences d) sl) in Hwf.
  destruct (remove_loop_run _ _ _ d Hwf) as (d1 & Hrun & Es & Em & Hwf1).
  exists (set_sentences (λ l, py_del_slice l sl) d1). split_and!.
  - unfold Document.remove_by_index. unfold bind at 1. unfold get.
    unfold bind at 1. rewrite Hrun. reflexivity.
  - simpl. by rewrite Es.
  - done.
  - unfold doc_wf. simpl. rewrite Es. exact Hwf1.
Qed.

Lemma clear_run d : Document.clear d = (Ok tt, Document.init).
Proof. reflexivity. Qed.

Lemma reachable_wf d : reachable d → doc_wf d.
Proof.
  induction 1 as [|d op o d' Hr IH Hpre Hrun]; [apply wf_init|].
  destruct op as [s tip|sl|]; simpl in *.
  - by eapply add_wf.
  - destruct (remove_by_index_run sl d IH) as (d1 & Hrun1 & _ & _ & Hwf1).
    rewrite Hrun1 in Hrun. by injection Hrun as _ <-.
  - rewrite clear_run in Hrun. injection Hrun as _ <-. apply wf_init.
Qed.

Lemma reachable_run_ops ops d : reachable d → ops_pre ops d → reachable (run_ops ops d).
Proof.
  revert d. induction ops as [|op ops IH]; intros d Hr Hpre; [done|].
  destruct Hpre as [Hop Hpre]. simpl. apply IH; [|done].
  apply (reachable_step d op (run_op op d).1 _ Hr Hop). by destruct (run_op op d).
Qed.

(** C1. Document / state-id-map coherence: in every document reachable from
    the empty one by [add], [remove_by_index] and [clear], where each added
    sentence carries a state id that is not a key of the map, the map has as
    many entries as the sequence has sentences and every sentence of the
    sequence is found in the map under its own state id.  A reachable state
    includes the state an operation leaves behind when it raises. *)
Theorem document_state_id_map_coherence d :
  reachable d →
  size (state_id_map d) = length (sentences d) ∧
  ∀ s, s ∈ sentences d → state_id_map d !! state_id s = Some s.
Proof.
  intros Hwf%reachable_wf. split.
  - by eapply wf_size.
  - apply Hwf.
Qed.

(** *** remove_covering_line *)


Lemma filter_all {A} (P : A → Prop) `{∀ x, Decision (P x)} (l : list A) :
  (∀ x, x ∈ l → P x) → filter P l = l.
Proof.
  induction l as [|y l IH]; intros Hall; [done|].
  rewrite filter_cons_True by apply Hall, list_elem_of_here.
  f_equal. apply IH. intros x Hx. by apply Hall, list_elem_of_further.
Qed.

Lemma py_remove_filter {A} `{EqDecision A} (l : list A) x :
  NoDup l → x ∈ l → py_remove l x = Ok (filter (λ y, y ≠ x) l).
Proof.
  induction l as [|y l IH]; [by intros _ ?%elem_of_nil|].
  intros [Hy Hnd]%NoDup_cons Hin. simpl.
  destruct (decide (y = x)) as [->|Hne].
  - rewrite filter_cons_False by tauto. f_equal. symmetry.
    apply filter_all. intros z Hz ->. done.
  - rewrite filter_cons_True by done.
    apply elem_of_cons in Hin as [->|Hin]; [done|].
    by rewrite IH.
Qed.



Lemma remove_by_index_post d sl :
  reachable d →
  ∃ d', Document.remove_by_index sl d = (Ok tt, d') ∧
        sentences d' = py_del_slice (sentences d) sl ∧
        (∀ s, s ∈ py_slice (sentences d) sl →
              (s ∉ sentences d') ∧ state_id_map d' !! state_id s = None ∧
              ∀ ln, s ∉ Document.iter_covering_line d' ln) ∧
        (∀ s, s ∈ sentences d' → state_id_map d' !! state_id s = Some s) ∧
        reachable d'.
Proof.
  intros Hr. pose proof (reachable_wf _ Hr) as Hwf.
  destruct (remove_by_index_run sl d Hwf) as (d' & Hrun & Hs & Hm & Hwf').
  exists d'. split_and!; try done.
  - intros s Hs_in.
    assert (s ∉ sentences d') as Hnot.
    { rewrite Hs. pose proof (wf_nodup _ _ _ Hwf) as Hnd.
      rewrite (py_slice_split (sentences d) sl) in Hnd.
      apply NoDup_app in Hnd as (_ & Hd1 & Hnd).
      apply NoDup_app in Hnd as (_ & Hd2 & _).
      unfold py_del_slice. rewrite elem_of_app. intros [Hl|Hr'].
      - apply (Hd1 s Hl). apply elem_of_app. by left.
      - by apply (Hd2 s Hs_in). }
    split_and!; [done| |].
    + rewrite Hm. rewrite decide_True; [done|]. apply list_elem_of_fmap. eauto.
    + intros ln Hin. apply Hnot. unfold Document.iter_covering_line in Hin.
      destruct (line_map d' !! ln) as [l|] eqn:El; simpl in Hin;
        [|by apply elem_of_nil in Hin].
      by apply (wf_seq_of_lines _ _ _ Hwf' ln l El).
  - apply Hwf'.
  - by apply (reachable_step d (OpRemoveByIndex sl) (Ok tt) d' Hr I).
Qed.


Example doc_ABC_sentences : sentences doc_ABC = [sA; sB; sC].
Proof. reflexivity. Qed.
Example stm_ABC_doc : sentences (_doc stm_ABC) = [sA; sB; sC] ∧ _tip_sentence stm_ABC = None.
Proof. vm_compute. done. Qed.
Example stm_focused_doc : sentences (_doc stm_focused) = [sA; sC] ∧ _tip_sentence stm_focused = Some sA.
Proof. vm_compute. done. Qed.

(** *** STM: building blocks *)

Lemma for_each_unhighlight xs x :
  for_each xs SentenceM.unhighlight x = (Ok tt, unhighlighted xs x).
Proof.
  revert x. induction xs as [|s xs IH]; intros x.
  - destruct x. unfold unhighlighted. simpl. by rewrite app_nil_r.
  - simpl. unfold bind at 1. unfold SentenceM.unhighlight at 1. run.
    rewrite IH. unfold unhighlighted. simpl. by rewrite <- app_assoc.
Qed.

Lemma unhighlighted_store xs x s :
  s ∈ xs → store (unhighlighted xs x) !! obj s = None.
Proof.
  unfold unhighlighted. simpl. generalize (store x).
  induction xs as [|y xs IH]; intros st; [by intros ?%elem_of_nil|].
  intros Hin. simpl. destruct (decide (s ∈ xs)) as [Hs|Hs]; [by apply IH|].
  apply elem_of_cons in Hin as [->|Hin]; [|done].
  clear IH Hs. generalize (lookup_delete_eq st (obj y)). generalize (delete (obj y) st).
  induction xs as [|z xs IH]; intros st' Hst'; [done|].
  simpl. apply IH. destruct (decide (obj z = obj y)) as [->|Hne].
  - apply lookup_delete_eq.
  - by rewrite lookup_delete_ne.
Qed.

Lemma clear_failed_run x : _clear_failed_sentence x = (Ok tt, failed_cleared x).
Proof. unfold _clear_failed_sentence, failed_cleared. run. by destruct (_failed_sentence x). Qed.

Lemma failed_cleared_doc x : _doc (failed_cleared x) = _doc x.
Proof. unfold failed_cleared. by destruct (_failed_sentence x). Qed.
Lemma failed_cleared_tip x : _tip_sentence (failed_cleared x) = _tip_sentence x.
Proof. unfold failed_cleared. by destruct (_failed_sentence x). Qed.
Lemma failed_cleared_init x : _init_state_id (failed_cleared x) = _init_state_id x.
Proof. unfold failed_cleared. by destruct (_failed_sentence x). Qed.
Lemma failed_cleared_requests x : requests (failed_cleared x) = requests x.
Proof. unfold failed_cleared. by destruct (_failed_sentence x). Qed.
Lemma failed_cleared_failed x : _failed_sentence (failed_cleared x) = None.
Proof. unfold failed_cleared. by destruct (_failed_sentence x) eqn:E. Qed.

Lemma tip_state_id_run x : _tip_state_id x = (Ok (predecessor_state_id x), x).
Proof.
  unfold _tip_state_id, predecessor_state_id. rewrite bind_get.
  destruct (_tip_sentence x) as [t|]; [done|].
  unfold Document.bool_. destruct (last (sentences (_doc x))) as [s|] eqn:El.
  - destruct (sentences (_doc x)) as [|s0 l] eqn:Es; [done|].
    rewrite bind_lift. by rewrite (py_getitem_last _ _ El).
  - apply last_None in El. by rewrite El.
Qed.

Lemma discard_run x :
  on_task_thread TaskThread.discard_scheduled_tasks x = (Ok tt, discarded x).
Proof. reflexivity. Qed.

(** *** STM: the claims on the handlers *)

(** C8. Connection-loss cleanup: the callback made by [_make_on_lost_cb]
    always returns normally; it empties the queue of tasks not yet started,
    un-highlights every sentence of the document, leaves the document with an
    empty sequence, state-id map and line map, hands [handle_action] the
    un-highlighting of each sentence followed by exactly one [ConnLost] for
    the buffer number of the STM, releases the semaphore of [done] once and
    sends no request. *)
Theorem connection_lost_cleanup x :
  ∃ x', on_lost x = (Ok tt, x') ∧
        _schedule_queue (_task_thread x') = [] ∧
        _scheduled_task_count (_task_thread x') =
          _scheduled_task_count (_task_thread x)
          - Z.of_nat (length (_schedule_queue (_task_thread x))) ∧
        (∀ s, s ∈ sentences (_doc x) → store x' !! obj s = None) ∧
        sentences (_doc x') = [] ∧ state_id_map (_doc x') = ∅ ∧ line_map (_doc x') = ∅ ∧
        (∃ new, actions x' = actions x ++ new ∧
                new = (UnhlSentence <$> sentences (_doc x)) ++ [ConnLost (_bufnr x)] ∧
                filter is_conn_lost new = [ConnLost (_bufnr x)]) ∧
        task_done (_task_thread x') = S (task_done (_task_thread x)) ∧
        requests x' = requests x.
Proof.
  eexists. split.
  - unfold on_lost, _finally_call.
    rewrite (bind_Ok _ _ _ _ _ (discard_run x)), bind_get.
    rewrite (bind_Ok _ _ _ _ _ (for_each_unhighlight _ _)).
    reflexivity.
  - simpl. split_and!; try done.
    + intros s Hs. apply (unhighlighted_store (sentences (_doc x)) (discarded x) s Hs).
    + eexists. split_and!; [by rewrite <- app_assoc|done|].
      rewrite filter_app. simpl.
      replace (filter is_conn_lost (UnhlSentence <$> sentences (_doc x))) with (@nil Action); [done|].
      induction (sentences (_doc x)) as [|s l IH]; [done|].
      rewrite fmap_cons, filter_cons_False; [done|]. simpl. tauto.
Qed.

(** C5. Add failure handling: when the Add response of a forward attempt
    carries an error, the handler returns normally, leaves no task in the
    queue, builds a sentence with state id 0 on the attempted region, makes
    it the failed-sentence marker whatever the marker was before, marks it
    errored with the reported location and message, and the document
    (sequence, state-id map and line map) is the one from before the
    attempt, that is before the task sent the Add request. *)
Theorem add_failure_handling x sregion err new next msg :
  let res := mkAddRes (Some err) new next msg in
  let s := mkSentence (next_obj x) sregion 0 in
  let st := StError (err_location err) (err_message err) in
  ∃ x1 x2,
    run_task (TaskForwardOne sregion) x = (Ok tt, x1) ∧
    requests x1 = requests x ++
      [(AddReq (command sregion) (-1) (predecessor_state_id x) false, OnAddRes sregion)] ∧
    _failed_sentence x1 = None ∧
    _doc x1 = _doc x ∧
    on_add_res sregion res x1 = (Ok tt, x2) ∧
    _schedule_queue (_task_thread x2) = [] ∧
    _failed_sentence x2 = Some s ∧ state_id s = 0 ∧ region s = sregion ∧
    store x2 !! obj s = Some st ∧ SentenceM.has_error x2 s = true ∧
    actions x2 = actions x1 ++ [HlSentence s st] ∧
    _doc x2 = _doc x ∧
    _tip_sentence x2 = _tip_sentence x ∧
    task_done (_task_thread x2) = S (task_done (_task_thread x)) ∧
    requests x2 = requests x1.
Proof.
  intros res s st.
  assert (run_task (TaskForwardOne sregion) x =
          (Ok tt, set_requests (λ l, l ++ [(AddReq (command sregion) (-1)
                     (predecessor_state_id x) false, OnAddRes sregion)])
                    (failed_cleared x))) as Htask.
  { unfold run_task. rewrite (bind_Ok _ _ _ _ _ (clear_failed_run x)).
    rewrite (bind_Ok _ _ _ _ _ (tip_state_id_run _)).
    unfold predecessor_state_id.
    by rewrite failed_cleared_tip, failed_cleared_doc, failed_cleared_init. }
  eexists _, _. split; [exact Htask|].
  split; [cbn; by rewrite failed_cleared_requests|].
  split; [cbn; apply failed_cleared_failed|].
  split; [cbn; apply failed_cleared_doc|].
  split; [reflexivity|].
  assert (next_obj (failed_cleared x) = next_obj x) as Hobj.
  { unfold failed_cleared. by destruct (_failed_sentence x). }
  cbn. rewrite Hobj. unfold SentenceM.has_error. cbn.
  rewrite lookup_insert_eq, failed_cleared_doc, failed_cleared_tip.
  split_and!; try done.
  unfold failed_cleared. by destruct (_failed_sentence x).
Qed.

(** C6. Synchronous forward rejection: when the document is not empty and
    its last sentence has error status, [forward] and [forward_many] hand
    one error message to [handle_action] and return; the task thread (queue,
    count, semaphore), the document, the tip, the failed-sentence marker,
    the highlight store and the requests sent are what they were, so no task
    is scheduled and no Add or Goal request follows from the call. *)
Theorem forward_rejected_after_error x s sregion sregions :
  last (sentences (_doc x)) = Some s →
  SentenceM.has_error x s = true →
  (∃ x', forward sregion x = (Ok tt, x') ∧
         actions x' = actions x ++ [ShowMessage "Fix the error first" "error"] ∧
         _task_thread x' = _task_thread x ∧ _doc x' = _doc x ∧
         _tip_sentence x' = _tip_sentence x ∧
         _failed_sentence x' = _failed_sentence x ∧
         store x' = store x ∧ requests x' = requests x) ∧
  (∃ x', forward_many sregions x = (Ok tt, x') ∧
         actions x' = actions x ++ [ShowMessage "Fix the error first." "error"] ∧
         _task_thread x' = _task_thread x ∧ _doc x' = _doc x ∧
         _tip_sentence x' = _tip_sentence x ∧
         _failed_sentence x' = _failed_sentence x ∧
         store x' = store x ∧ requests x' = requests x).
Proof.
  intros Hlast Herr.
  assert (last_has_error x = (Ok true, x)) as Hchk.
  { unfold last_has_error. rewrite bind_get. unfold Document.bool_.
    destruct (sentences (_doc x)) as [|s0 l] eqn:Es; [done|].
    rewrite bind_lift, (py_getitem_last _ _ Hlast). unfold ret. by rewrite Herr. }
  split.
  - eexists. split.
    + unfold forward. rewrite (bind_Ok _ _ _ _ _ Hchk). reflexivity.
    + done.
  - eexists. split.
    + unfold forward_many. rewrite (bind_Ok _ _ _ _ _ Hchk). reflexivity.
    + done.
Qed.

(** C7. Feedback dispatch: the handler tries the four classes in the order
    error message, leveled message, processed, added axiom, and the first
    class the payload is an instance of decides.  An error message, or a
    leveled message of level "error", marks the sentence found under the
    state id of the feedback errored with the location and message of the
    payload, or without such a sentence hands a message of level "error" to
    [handle_action]; another leveled message is handed on at its level;
    processed and added-axiom mark the sentence found and do nothing without
    one.  The result is [True] exactly when the payload is an instance of
    one of the four classes; otherwise it is [False] and the state is
    unchanged. *)
Theorem feedback_dispatch x fb :
  let c := content fb in
  let sentence := FeedbackHandler.lookup_sentence x fb in
  let mark st := match sentence with Some s => highlighted s st x | None => x end in
  let on_error :=
    match sentence with
    | Some s => highlighted s (StError (fb_location c) (fb_message c)) x
    | None => notified (ShowMessage (fb_message c) "error") x
    end in
  FeedbackHandler.lookup_sentence x fb
    = (fb_state_id fb ≫= λ k, state_id_map (_doc x) !! k) ∧
  FeedbackHandler.__call__ fb x =
    (if isinstance c ErrorMsgT then (Ok true, on_error)
     else if isinstance c MessageT then
       (Ok true, if decide (fb_level c = "error") then on_error
                 else notified (ShowMessage (fb_message c) (fb_level c)) x)
     else if isinstance c ProcessedT then (Ok true, mark StProcessed)
     else if isinstance c AddedAxiomT then (Ok true, mark StAxiom)
     else (Ok false, x)) ∧
  ((FeedbackHandler.__call__ fb x).1 = Ok true ↔ ∃ t, isinstance c t = true) ∧
  ((FeedbackHandler.__call__ fb x).1 = Ok false ↔ ∀ t, isinstance c t = false).
Proof.
  intros c sentence mark on_error.
  assert (FeedbackHandler.__call__ fb x =
    (if isinstance c ErrorMsgT then (Ok true, on_error)
     else if isinstance c MessageT then
       (Ok true, if decide (fb_level c = "error") then on_error
                 else notified (ShowMessage (fb_message c) (fb_level c)) x)
     else if isinstance c ProcessedT then (Ok true, mark StProcessed)
     else if isinstance c AddedAxiomT then (Ok true, mark StAxiom)
     else (Ok false, x))) as Hcall.
  { unfold FeedbackHandler.__call__. rewrite bind_get.
    unfold FeedbackHandler._FEEDBACK_HANDLERS, FeedbackHandler.dispatch.
    subst mark on_error sentence c.
    destruct (isinstance (content fb) ErrorMsgT).
    { unfold FeedbackHandler._on_error_msg.
      by destruct (FeedbackHandler.lookup_sentence x fb). }
    destruct (isinstance (content fb) MessageT).
    { unfold FeedbackHandler._on_message.
      destruct (decide (fb_level (content fb) = "error"));
        by destruct (FeedbackHandler.lookup_sentence x fb). }
    destruct (isinstance (content fb) ProcessedT).
    { unfold FeedbackHandler._on_processed.
      by destruct (FeedbackHandler.lookup_sentence x fb). }
    destruct (isinstance (content fb) AddedAxiomT).
    { unfold FeedbackHandler._on_added_axiom.
      by destruct (FeedbackHandler.lookup_sentence x fb). }
    done. }
  split; [by destruct fb as [[k|] ?]|]. split; [exact Hcall|].
  rewrite Hcall. clear Hcall. split.
  - split.
    + destruct (isinstance c ErrorMsgT) eqn:E1; [eauto|].
      destruct (isinstance c MessageT) eqn:E2; [eauto|].
      destruct (isinstance c ProcessedT) eqn:E3; [eauto|].
      destruct (isinstance c AddedAxiomT) eqn:E4; [eauto|]. done.
    + intros [[] ->]; [done|..].
      * by destruct (isinstance c ErrorMsgT).
      * by destruct (isinstance c ErrorMsgT), (isinstance c MessageT).
      * by destruct (isinstance c ErrorMsgT), (isinstance c MessageT),
             (isinstance c ProcessedT).
  - split.
    + destruct (isinstance c ErrorMsgT) eqn:E1; [done|].
      destruct (isinstance c MessageT) eqn:E2; [done|].
      destruct (isinstance c ProcessedT) eqn:E3; [done|].
      destruct (isinstance c AddedAxiomT) eqn:E4; [done|]. by intros _ [].
    + intros Hall. by rewrite !Hall.
Qed.

(** *** The Add response *)

Lemma on_doc_run {A} (m : M _Document A) x o d' :
  m (_doc x) = (o, d') → on_doc m x = (o, set_doc (λ _, d') x).
Proof. intros E. unfold on_doc, zoom. by rewrite E. Qed.

Lemma new_run sregion sid x :
  SentenceM.new sregion sid x = (Ok (mkSentence (next_obj x) sregion sid), set_next_obj S x).
Proof. reflexivity. Qed.

Lemma highlight_run s st x : SentenceM.highlight s st x = (Ok tt, highlighted s st x).
Proof. reflexivity. Qed.

Lemma handle_action_run a x : handle_action a x = (Ok tt, notified a x).
Proof. reflexivity. Qed.

Lemma on_add_res_success sregion res x :
  add_error res = None →
  let s := mkSentence (next_obj x) sregion (new_state_id res) in
  on_add_res sregion res x =
    match Document.add s (_tip_sentence x) (_doc x) with
    | (Raise e, d') => (Raise e, done_called (set_doc (λ _, d') (set_next_obj S x)))
    | (Ok _, d') =>
        let x2 := added s d' (add_message res) x in
        if truthy (next_state_id res) then
          match state_id_map_getitem d' (next_state_id res) with
          | Ok t => (Ok tt, done_called (set_tip_sentence (Some t) x2))
          | Raise e => (Raise e, done_called x2)
          end
        else (Ok tt, done_called (set_tip_sentence None x2))
    end.
Proof.
  intros Herr s. unfold on_add_res, _finally_call. rewrite Herr.
  rewrite (bind_Ok _ _ _ _ _ (new_run sregion (new_state_id res) x)), bind_get.
  cbn [_tip_sentence set_next_obj]. fold s.
  destruct (Document.add s (_tip_sentence x) (_doc x)) as [[[]|e] d'] eqn:Eadd.
  - rewrite (bind_Ok _ _ _ _ _ (on_doc_run _ (set_next_obj S x) _ _ Eadd)).
    unfold SentenceM.set_processing.
    rewrite (bind_Ok _ _ _ _ _ (highlight_run _ _ _)).
    rewrite (bind_Ok _ _ _ _ _ (handle_action_run _ _)).
    destruct (truthy (next_state_id res)).
    + rewrite bind_get. cbn [_doc notified highlighted set_actions set_store set_doc].
      rewrite bind_lift.
      by destruct (state_id_map_getitem d' (next_state_id res)).
    + reflexivity.
  - by rewrite (bind_Raise _ _ _ _ _ (on_doc_run _ (set_next_obj S x) _ _ Eadd)).
Qed.

Lemma py_insert_end {A} (l : list A) x : py_insert l (length l) x = l ++ [x].
Proof. unfold py_insert. by rewrite take_ge, drop_ge by lia. Qed.

Lemma add_position_last d tip :
  NoDup (sentences d) →
  tip = None ∨ tip = last (sentences d) →
  add_position d tip = Ok (length (sentences d)).
Proof.
  intros Hnd Htip. unfold add_position. destruct tip as [t|]; [|done].
  destruct Htip as [|Hl]; [done|]. symmetry in Hl.
  pose proof Hl as Hl'. rewrite last_lookup in Hl'.
  rewrite (py_index_NoDup _ _ _ Hnd Hl'). f_equal.
  assert (length (sentences d) ≠ 0%nat); [|lia].
  by destruct (sentences d).
Qed.

(** Where tip consistency does hold.  [_tip_state_id] never raises and
    yields the predecessor in priority order: the state id of the tip, else
    that of the last sentence, else the initial state id.  After an Add
    response whose handler returned normally and whose new state id was not
    yet in the map: when the response
    carries a [next_state_id] other than 0, the next predecessor is that id;
    when it carries none (or 0) and the tip before the exchange was absent
    or was the last sentence, the new sentence sits last, the tip is absent
    and the next predecessor is [new_state_id]. *)
Theorem tip_consistency x sregion res x' :
  reachable (_doc x) →
  state_id_map (_doc x) !! new_state_id res = None →
  add_error res = None →
  on_add_res sregion res x = (Ok tt, x') →
  (∀ y, _tip_state_id y = (Ok (predecessor_state_id y), y)) ∧
  (truthy (next_state_id res) = true →
     predecessor_state_id x' = next_state_id res) ∧
  (truthy (next_state_id res) = false →
     _tip_sentence x = None ∨ _tip_sentence x = last (sentences (_doc x)) →
     last (sentences (_doc x')) = Some (mkSentence (next_obj x) sregion (new_state_id res)) ∧
     _tip_sentence x' = None ∧
     predecessor_state_id x' = Some (new_state_id res)).
Proof.
  intros Hwf%reachable_wf Hfresh Herr Hrun.
  split; [apply tip_state_id_run|].
  rewrite (on_add_res_success _ _ _ Herr) in Hrun.
  set (s := mkSentence (next_obj x) sregion (new_state_id res)) in *.
  pose proof (add_wf s (_tip_sentence x) (_doc x)) as Hwf'.
  pose proof (add_run s (_tip_sentence x) (_doc x)) as Hspec.
  destruct (Document.add s (_tip_sentence x) (_doc x)) as [[[]|e] d'] eqn:Eadd; [|done].
  specialize (Hwf' _ _ Hwf Hfresh eq_refl).
  split.
  - intros Ht. rewrite Ht in Hrun.
    destruct (next_state_id res) as [n|] eqn:En; [|done]. simpl in Hrun.
    unfold Document.dict_getitem in Hrun.
    destruct (state_id_map d' !! n) as [t|] eqn:Et; [|done].
    injection Hrun as <-. unfold predecessor_state_id. simpl.
    destruct (wf_seq_of_map _ _ _ Hwf' n t Et) as [_ ->]. done.
  - intros Ht Htip. rewrite Ht in Hrun. injection Hrun as <-.
    rewrite (add_position_last _ _ (wf_nodup _ _ _ Hwf) Htip) in Hspec.
    destruct Hspec as (d1 & [= <-] & Hs & _).
    unfold predecessor_state_id. simpl. rewrite Hs, py_insert_end, last_snoc.
    done.
Qed.

(** *** Concrete runs *)

Lemma doc_ABC_reachable : reachable doc_ABC.
Proof. apply reachable_run_ops; [constructor|]. vm_compute. done. Qed.

Lemma stm_ABC_reachable : reachable (_doc stm_ABC).
Proof.
  replace (_doc stm_ABC) with doc_ABC by (vm_compute; reflexivity).
  apply doc_ABC_reachable.
Qed.

Lemma stm_focused_reachable : reachable (_doc stm_focused).
Proof.
  replace (_doc stm_focused)
    with (run_ops [OpRemoveByIndex (Slice (Some 1) (Some 2))] doc_ABC)
    by (vm_compute; reflexivity).
  apply reachable_run_ops; [apply doc_ABC_reachable|]. vm_compute. done.
Qed.

(** The coherence at the document of three sentences. *)
Lemma document_state_id_map_coherence_witness :
  reachable doc_ABC ∧
  size (state_id_map doc_ABC) = length (sentences doc_ABC) ∧
  ∀ s, s ∈ sentences doc_ABC → state_id_map doc_ABC !! state_id s = Some s.
Proof.
  split; [apply doc_ABC_reachable|].
  apply (document_state_id_map_coherence doc_ABC), doc_ABC_reachable.
Defined.

(** Tip consistency as the specification words it fails.  In [stm_focused] the document
    is [sA; sC] with state ids 2 and 4 and the tip is [sA], as a focused
    rollback leaves it.  A forward then succeeds with [new_state_id = 5] and
    no [next_state_id]: the new sentence goes in behind the tip, between
    [sA] and [sC], the tip is reset to absent, and [_tip_state_id] yields 4,
    the state id of the last sentence [sC], not 5. *)
Lemma tip_consistency_counterexample : ¬ tip_consistency_as_stated.
Proof.
  intros H.
  specialize (H stm_focused rD (add_ok 5 None)
                (on_add_res rD (add_ok 5 None) stm_focused).2
                stm_focused_reachable).
  assert ((_tip_state_id (on_add_res rD (add_ok 5 None) stm_focused).2).1 = Ok (Some 4))
    as Hcode by (vm_compute; reflexivity).
  rewrite H in Hcode; [discriminate| |reflexivity|].
  - vm_compute. reflexivity.
  - vm_compute. reflexivity.
Qed.

(** A forward on [stm_ABC], whose tip is absent: the next predecessor is the
    new state id 5. *)
Lemma tip_consistency_witness :
  reachable (_doc stm_ABC) ∧
  state_id_map (_doc stm_ABC) !! new_state_id (add_ok 5 None) = None ∧
  add_error (add_ok 5 None) = None ∧
  on_add_res rD (add_ok 5 None) stm_ABC
    = (Ok tt, (on_add_res rD (add_ok 5 None) stm_ABC).2) ∧
  predecessor_state_id (on_add_res rD (add_ok 5 None) stm_ABC).2 = Some 5.
Proof.
  assert (state_id_map (_doc stm_ABC) !! new_state_id (add_ok 5 None) = None) as Hfresh
    by (vm_compute; reflexivity).
  assert (on_add_res rD (add_ok 5 None) stm_ABC
          = (Ok tt, (on_add_res rD (add_ok 5 None) stm_ABC).2)) as Hrun
    by (vm_compute; reflexivity).
  split_and!; [apply stm_ABC_reachable|exact Hfresh|reflexivity|exact Hrun|].
  destruct (tip_consistency stm_ABC rD (add_ok 5 None) _
              stm_ABC_reachable Hfresh eq_refl Hrun) as (_ & _ & Hnew).
  apply Hnew; [reflexivity|]. left. vm_compute. reflexivity.
Defined.

(** C4. Tip consistency is lost by an Add behind a tip in the middle of the
    document.  In [stm_focused] the document is [sA; sC] with the state ids
    2 and 4 and the tip is [sA], as a focused rollback leaves it.  The Add
    response for the region [rD] with [new_state_id = 5] and no
    [next_state_id] is handled without an exception: [_Document.add] places
    the new sentence [sD] behind the tip, between [sA] and [sC], and the
    [else] branch resets the tip to absent.  [_tip_state_id] then yields 4,
    the state id of the last sentence [sC], not 5, and the Add request of
    the following forward task goes out with the predecessor 4. *)
Theorem tip_stale_after_add_behind_tip :
  sentences (_doc stm_focused) = [sA; sC] ∧
  _tip_sentence stm_focused = Some sA ∧
  state_id_map (_doc stm_focused) !! 5 = None ∧
  (on_add_res rD (add_ok 5 None) stm_focused).1 = Ok tt ∧
  sentences (_doc (on_add_res rD (add_ok 5 None) stm_focused).2) = [sA; sD; sC] ∧
  _tip_sentence (on_add_res rD (add_ok 5 None) stm_focused).2 = None ∧
  (_tip_state_id (on_add_res rD (add_ok 5 None) stm_focused).2).1 = Ok (Some 4) ∧
  requests (run_task (TaskForwardOne rA) (on_add_res rD (add_ok 5 None) stm_focused).2).2
    = requests (on_add_res rD (add_ok 5 None) stm_focused).2
      ++ [(AddReq (command rA) (-1) (Some 4) false, OnAddRes rA)].
Proof. vm_compute. done. Qed.

(** [forward] on [stm_errored], whose last sentence is marked errored. *)
Lemma forward_rejected_after_error_witness :
  last (sentences (_doc stm_errored)) = Some sC ∧
  SentenceM.has_error stm_errored sC = true ∧
  ∃ x', forward rD stm_errored = (Ok tt, x') ∧
        _task_thread x' = _task_thread stm_errored ∧
        _doc x' = _doc stm_errored ∧
        requests x' = requests stm_errored.
Proof.
  assert (last (sentences (_doc stm_errored)) = Some sC) as Hlast
    by (vm_compute; reflexivity).
  assert (SentenceM.has_error stm_errored sC = true) as Herr
    by (vm_compute; reflexivity).
  split_and!; [exact Hlast|exact Herr|].
  destruct (forward_rejected_after_error stm_errored sC rD [rD; rA] Hlast Herr)
    as [(x' & Hrun & _ & Hth & Hdoc & _ & _ & _ & Hreq) _].
  exists x'. split_and!; assumption.
Defined.


(** *** The EditAt response *)

Lemma backward_before_index_run index x :
  _backward_before_index index x =
    match (if decide (index = 0) then Ok (_init_state_id x)
           else match py_getitem (sentences (_doc x)) (index - 1) with
                | Ok s => Ok (Some (state_id s))
                | Raise e => Raise e
                end) with
    | Ok sid =>
        (Ok tt, set_requests (λ l, l ++ [(EditAtReq sid, OnEditAtRes index)])
                  (failed_cleared x))
    | Raise e => (Raise e, x)
    end.
Proof.
  unfold _backward_before_index. rewrite bind_get.
  destruct (decide (index = 0)).
  - rewrite bind_ret. by rewrite (bind_Ok _ _ _ _ _ (clear_failed_run x)).
  - destruct (py_getitem (sentences (_doc x)) (index - 1)) as [s|e].
    + rewrite (bind_Ok _ _ x x (Some (state_id s))) by reflexivity.
      by rewrite (bind_Ok _ _ _ _ _ (clear_failed_run x)).
    + reflexivity.
Qed.

Lemma on_edit_at_error index err foc q x :
  on_edit_at_res index (mkEditAtRes (Some err) foc q) x =
    let x1 := notified (ShowMessage (err_message err) "error") x in
    match Document.dict_getitem (state_id_map (_doc x)) (err_state_id err) with
    | Raise e => (Raise e, x1)
    | Ok s =>
        match py_index (sentences (_doc x)) s with
        | Raise e => (Raise e, x1)
        | Ok sindex => _backward_before_index (Z.of_nat sindex + 1) x1
        end
    end.
Proof.
  unfold on_edit_at_res. cbn [edit_error].
  rewrite (bind_Ok _ _ _ _ _ (handle_action_run _ _)), bind_get.
  cbn [_doc notified set_actions]. rewrite bind_lift.
  destruct (Document.dict_getitem (state_id_map (_doc x)) (err_state_id err)) as [s|e];
    [|done].
  rewrite bind_lift. by destruct (py_index (sentences (_doc x)) s).
Qed.

Lemma on_edit_at_focused index q x :
  on_edit_at_res index (mkEditAtRes None true q) x =
    match state_id_map_getitem (_doc x) q with
    | Raise e => (Raise e, x)
    | Ok qed_sentence =>
        match py_index (sentences (_doc x)) qed_sentence with
        | Raise e => (Raise e, x)
        | Ok qed_index =>
            let sl := Slice (Some index) (Some (Z.of_nat qed_index + 1)) in
            let x1 := unhighlighted (py_slice (sentences (_doc x)) sl) x in
            match Document.remove_by_index sl (_doc x) with
            | (Raise e, d') => (Raise e, set_doc (λ _, d') x1)
            | (Ok _, d') =>
                match py_getitem (sentences d') (index - 1) with
                | Ok t => (Ok tt, done_called (set_tip_sentence (Some t)
                                                (set_doc (λ _, d') x1)))
                | Raise e => (Raise e, set_doc (λ _, d') x1)
                end
            end
        end
    end.
Proof.
  unfold on_edit_at_res. cbn [edit_error focused negb qed].
  unfold bind at 1. rewrite bind_get, bind_lift.
  destruct (state_id_map_getitem (_doc x) q) as [qs|e]; [|done].
  rewrite bind_lift.
  destruct (py_index (sentences (_doc x)) qs) as [qi|e]; [|done].
  rewrite (bind_Ok _ _ _ _ _ (for_each_unhighlight _ _)).
  destruct (Document.remove_by_index (Slice (Some index) (Some (Z.of_nat qi + 1))) (_doc x))
    as [[[]|e] d'] eqn:Erm.
  - rewrite (bind_Ok _ _ _ _ _ (on_doc_run _ (unhighlighted _ x) _ _ Erm)).
    rewrite bind_get. cbn [_doc set_doc]. rewrite bind_lift.
    by destruct (py_getitem (sentences d') (index - 1)).
  - by rewrite (bind_Raise _ _ _ _ _ (on_doc_run _ (unhighlighted _ x) _ _ Erm)).
Qed.

Lemma on_edit_at_unfocused index q x :
  on_edit_at_res index (mkEditAtRes None false q) x =
    let sl := Slice (Some index) None in
    let x1 := unhighlighted (py_slice (sentences (_doc x)) sl) x in
    match Document.remove_by_index sl (_doc x) with
    | (Raise e, d') => (Raise e, set_doc (λ _, d') x1)
    | (Ok _, d') => (Ok tt, done_called (set_tip_sentence None (set_doc (λ _, d') x1)))
    end.
Proof.
  unfold on_edit_at_res. cbn [edit_error focused negb].
  unfold bind at 1. rewrite bind_get.
  rewrite (bind_Ok _ _ _ _ _ (for_each_unhighlight _ _)).
  destruct (Document.remove_by_index (Slice (Some index) None) (_doc x))
    as [[[]|e] d'] eqn:Erm.
  - by rewrite (bind_Ok _ _ _ _ _ (on_doc_run _ (unhighlighted _ x) _ _ Erm)).
  - by rewrite (bind_Raise _ _ _ _ _ (on_doc_run _ (unhighlighted _ x) _ _ Erm)).
Qed.

Lemma live_getitem d k :
  doc_wf d →
  (live d k ↔ ∃ s, state_id_map_getitem d k = Ok s) ∧
  (¬ live d k ↔ state_id_map_getitem d k = Raise KeyError) ∧
  (∀ s, state_id_map_getitem d k = Ok s → s ∈ sentences d ∧ k = Some (state_id s)).
Proof.
  intros Hwf.
  assert (∀ s, state_id_map_getitem d k = Ok s → s ∈ sentences d ∧ k = Some (state_id s))
    as Hok.
  { intros s. destruct k as [k|]; [|done]. simpl. unfold Document.dict_getitem.
    destruct (state_id_map d !! k) as [s'|] eqn:E; [|done]. intros [= <-].
    destruct (wf_seq_of_map _ _ _ Hwf k s' E) as [? <-]. done. }
  assert (live d k → ∃ s, state_id_map_getitem d k = Ok s) as Hlive.
  { intros (s & Hs & ->). exists s. simpl. unfold Document.dict_getitem.
    by rewrite (wf_map_of_seq _ _ _ Hwf s Hs). }
  split_and!; [|  |exact Hok].
  - split; [exact Hlive|]. intros [s Hs]. exists s. by apply Hok.
  - split.
    + intros Hn. destruct (state_id_map_getitem d k) as [s|e] eqn:E.
      * exfalso. apply Hn. exists s. by apply Hok.
      * destruct k as [k|]; simpl in E; [|congruence].
        unfold Document.dict_getitem in E. destruct (state_id_map d !! k); congruence.
    + intros E [s Hs]%Hlive. congruence.
Qed.

Lemma py_getitem_Raise {A} (l : list A) i e : py_getitem l i = Raise e → e = IndexError.
Proof.
  unfold py_getitem. destruct (decide _); [|by intros [= <-]].
  destruct (l !! _); [done|by intros [= <-]].
Qed.

(** C9. The three unguarded lookups in the state-id map.  On a reachable
    document each of them succeeds exactly when the id looked up is live,
    that is held by a sentence of the sequence, and raises [KeyError]
    exactly when it is not: the lookup of [next_state_id] once the new
    sentence is in the document, the lookup of the [qed] id of a focused
    EditAt response, the lookup of the state id reported by an EditAt
    error.  So when the checker reports live ids only, [KeyError] is raised
    in none of the three places. *)
Theorem state_id_lookups_partial x :
  reachable (_doc x) →
  (∀ sregion res d',
     add_error res = None → truthy (next_state_id res) = true →
     state_id_map (_doc x) !! new_state_id res = None →
     Document.add (mkSentence (next_obj x) sregion (new_state_id res))
                  (_tip_sentence x) (_doc x) = (Ok tt, d') →
     ((on_add_res sregion res x).1 = Ok tt ↔ live d' (next_state_id res)) ∧
     ((on_add_res sregion res x).1 = Raise KeyError ↔ ¬ live d' (next_state_id res))) ∧
  (∀ index q,
     ((on_edit_at_res index (mkEditAtRes None true q) x).1 = Raise KeyError
        ↔ ¬ live (_doc x) q) ∧
     (¬ live (_doc x) q →
        on_edit_at_res index (mkEditAtRes None true q) x = (Raise KeyError, x))) ∧
  (∀ index err foc q,
     ((on_edit_at_res index (mkEditAtRes (Some err) foc q) x).1 = Ok tt
        ↔ live (_doc x) (Some (err_state_id err))) ∧
     ((on_edit_at_res index (mkEditAtRes (Some err) foc q) x).1 = Raise KeyError
        ↔ ¬ live (_doc x) (Some (err_state_id err)))).
Proof.
  intros Hwf%reachable_wf. split_and!.
  - intros sregion res d' Herr Ht Hfresh Hadd.
    rewrite (on_add_res_success _ _ _ Herr). cbv zeta. rewrite Hadd, Ht.
    assert (doc_wf d') as Hwf'
      by exact (add_wf (mkSentence (next_obj x) sregion (new_state_id res))
                       _ _ _ _ Hwf Hfresh Hadd).
    destruct (live_getitem d' (next_state_id res) Hwf') as (Hl & Hn & _).
    destruct (state_id_map_getitem d' (next_state_id res)) as [t|e] eqn:E; simpl.
    + split; [split; [intros _; apply Hl; eauto|done]|].
      split; [done|]. intros Hnl. apply Hn in Hnl. done.
    + assert (¬ live d' (next_state_id res)) as Hnl.
      { intros [s Hs]%Hl. done. }
      pose proof Hnl as [= ->]%Hn.
      split; [split; [done|by intros ?]|]. done.
  - intros index q. rewrite on_edit_at_focused.
    destruct (live_getitem (_doc x) q Hwf) as (Hl & Hn & Hok).
    destruct (state_id_map_getitem (_doc x) q) as [qs|e] eqn:E.
    + assert (live (_doc x) q) as Hlive by (apply Hl; eauto).
      destruct (Hok qs eq_refl) as [Hqs _].
      destruct (py_index_elem_of _ _ Hqs) as [qi ->]. cbv zeta.
      destruct (remove_by_index_run (Slice (Some index) (Some (Z.of_nat qi + 1)))
                  (_doc x) Hwf) as (d1 & -> & _).
      destruct (py_getitem (sentences d1) (index - 1)) as [t|e] eqn:Eg; simpl.
      * split; [split; [done|by intros ?]|by intros ?].
      * apply py_getitem_Raise in Eg as ->.
        split; [split; [done|by intros ?]|by intros ?].
    + assert (¬ live (_doc x) q) as Hnl by (intros [s Hs]%Hl; done).
      pose proof Hnl as [= ->]%Hn. done.
  - intros index err foc q. rewrite on_edit_at_error. cbv zeta.
    destruct (live_getitem (_doc x) (Some (err_state_id err)) Hwf) as (Hl & Hn & Hok).
    simpl in Hl, Hn, Hok.
    destruct (Document.dict_getitem (state_id_map (_doc x)) (err_state_id err))
      as [s|e] eqn:E.
    + assert (live (_doc x) (Some (err_state_id err))) as Hlive by (apply Hl; eauto).
      destruct (Hok s eq_refl) as [Hs _].
      destruct (py_index_elem_of _ _ Hs) as [i Hi]. rewrite Hi.
      apply py_index_Ok in Hi as [Hi _].
      rewrite backward_before_index_run.
      rewrite decide_False by lia.
      replace (Z.of_nat i + 1 - 1) with (Z.of_nat i) by lia.
      cbn [_doc notified set_actions].
      rewrite (py_getitem_nonneg _ _ _ Hi). simpl.
      split; [done|]. split; [done|by intros ?].
    + assert (¬ live (_doc x) (Some (err_state_id err))) as Hnl
        by (intros [s Hs]%Hl; done).
      pose proof Hnl as [= ->]%Hn. simpl.
      split; [split; [done|by intros ?]|done].
Qed.

(** *** The retry chain of a rollback *)

Lemma holder_position_Some ss sid p :
  holder_position ss sid = Some p →
  ∃ s, ss !! p = Some s ∧ state_id s = sid.
Proof.
  unfold holder_position. intros Hf.
  destruct (list_find (λ s, state_id s = sid) ss) as [[i s]|] eqn:E; [|done].
  simpl in Hf. injection Hf as ->.
  apply list_find_Some in E as (Hi & Hs & _). eauto.
Qed.

Lemma retried_indices_cons ss e errs p :
  holder_position ss (err_state_id e) = Some p →
  retried_indices ss (e :: errs) = (Z.of_nat p + 1) :: retried_indices ss errs.
Proof. intros Hp. unfold retried_indices. simpl. by rewrite Hp. Qed.

Lemma chain_pre_indices ss index errs :
  chain_pre ss index errs →
  NoDup (retried_indices ss errs) ∧
  (∀ i, i ∈ retried_indices ss errs → 1 ≤ i < index) ∧
  length (retried_indices ss errs) = length errs ∧
  Z.of_nat (length errs) ≤ Z.max 0 (index - 1) ∧
  (length errs ≤ length ss)%nat.
Proof.
  revert index. induction errs as [|e errs IH]; intros index Hpre.
  - split_and!; try done; [constructor|by intros i ?%elem_of_nil|simpl; lia|simpl; lia].
  - destruct Hpre as (p & Hp & Hlt & Hpre).
    destruct (IH _ Hpre) as (Hnd & Hb & Hlen & Hle & _).
    rewrite (retried_indices_cons _ _ _ _ Hp).
    destruct (holder_position_Some _ _ _ Hp) as (s & Hs%lookup_lt_Some & _).
    split_and!.
    + apply NoDup_cons. split; [|done]. intros Hin%Hb. lia.
    + intros i [->|Hin%Hb]%elem_of_cons; lia.
    + simpl. by rewrite Hlen.
    + simpl length. lia.
    + simpl length. lia.
Qed.

Lemma pending_callback_sent req cb y :
  pending_callback (set_requests (λ l, l ++ [(req, cb)]) y) = Some cb.
Proof. unfold pending_callback. simpl. by rewrite last_snoc. Qed.

Lemma edit_at_indices_app l1 l2 :
  edit_at_indices (l1 ++ l2) = edit_at_indices l1 ++ edit_at_indices l2.
Proof. apply omap_app. Qed.

Lemma deliver_edit_at_errors_run errs x index :
  doc_wf (_doc x) →
  pending_callback x = Some (OnEditAtRes index) →
  chain_pre (sentences (_doc x)) index errs →
  ∃ x' new, deliver_edit_at_errors errs x = (Ok tt, x') ∧
            _doc x' = _doc x ∧
            requests x' = requests x ++ new ∧
            edit_at_indices new = retried_indices (sentences (_doc x)) errs.
Proof.
  revert x index. induction errs as [|e errs IH]; intros x index Hwf Hpend Hpre.
  - exists x, []. split_and!; try done. by rewrite app_nil_r.
  - destruct Hpre as (p & Hp & Hlt & Hpre).
    destruct (holder_position_Some _ _ _ Hp) as (s & Hs & Hsid).
    assert (s ∈ sentences (_doc x)) as Hin by (by eapply list_elem_of_lookup_2).
    set (x1 := notified (ShowMessage (err_message e) "error") x).
    set (x2 := set_requests
                 (λ l, l ++ [(EditAtReq (Some (state_id s)), OnEditAtRes (Z.of_nat p + 1))])
                 (failed_cleared x1)).
    assert (on_edit_at_res index (mkEditAtRes (Some e) false None) x = (Ok tt, x2)) as Hstep.
    { rewrite on_edit_at_error. cbv zeta. unfold Document.dict_getitem.
      rewrite <- Hsid, (wf_map_of_seq _ _ _ Hwf s Hin).
      rewrite (py_index_NoDup _ _ _ (wf_nodup _ _ _ Hwf) Hs).
      rewrite backward_before_index_run. rewrite decide_False by lia.
      replace (Z.of_nat p + 1 - 1) with (Z.of_nat p) by lia.
      fold x1. replace (_doc x1) with (_doc x) by done.
      by rewrite (py_getitem_nonneg _ _ _ Hs). }
    assert (_doc x2 = _doc x) as Hdoc.
    { subst x2. cbn [_doc set_requests]. by rewrite failed_cleared_doc. }
    destruct (IH x2 (Z.of_nat p + 1)) as (x' & new & Hrun & Hdoc' & Hreq & Hinds).
    { by rewrite Hdoc. }
    { apply pending_callback_sent. }
    { by rewrite Hdoc. }
    exists x', ((EditAtReq (Some (state_id s)), OnEditAtRes (Z.of_nat p + 1)) :: new).
    split_and!.
    + cbn [deliver_edit_at_errors]. rewrite bind_get, Hpend.
      by rewrite (bind_Ok _ _ _ _ _ Hstep).
    + congruence.
    + rewrite Hreq. subst x2. cbn [requests set_requests].
      rewrite failed_cleared_requests. subst x1. cbn [requests notified set_actions].
      by rewrite <- app_assoc.
    + rewrite (retried_indices_cons _ _ _ _ Hp). cbn. f_equal.
      rewrite Hdoc in Hinds. exact Hinds.
Qed.

(** C2. Rollback retry convergence.  [_backward_before_index index] is
    called and the checker then answers each EditAt request with an error,
    one per element of [errs], where every reported state id is held by a
    sentence of the document at a position strictly before [index - 1] for
    the index being retried.  Then the whole run returns; the document is
    untouched; the indices [_backward_before_index] was called with are
    [index] followed, for each error in turn, by one past the position of
    the sentence holding the reported state id; no index occurs twice; and
    there are at most [len(sentences)] retries.  The one other outcome is
    that the first call raises [IndexError] before it sends anything, which
    takes an [index] outside [0 .. len(sentences)]. *)
Theorem rollback_retry_convergence x index errs o x' :
  reachable (_doc x) →
  chain_pre (sentences (_doc x)) index errs →
  (_backward_before_index index ;; deliver_edit_at_errors errs) x = (o, x') →
  ∃ new, requests x' = requests x ++ new ∧
         _doc x' = _doc x ∧
         ((o = Ok tt ∧
           edit_at_indices new = index :: retried_indices (sentences (_doc x)) errs ∧
           length (retried_indices (sentences (_doc x)) errs) = length errs) ∨
          (o = Raise IndexError ∧ new = [] ∧
           ¬ (0 ≤ index ≤ Z.of_nat (length (sentences (_doc x)))))) ∧
         NoDup (edit_at_indices new) ∧
         (∀ i, i ∈ retried_indices (sentences (_doc x)) errs → 1 ≤ i < index) ∧
         (length errs ≤ length (sentences (_doc x)))%nat.
Proof.
  intros Hwf%reachable_wf Hpre Hrun.
  destruct (chain_pre_indices _ _ _ Hpre) as (Hnd & Hb & Hlen & _ & Hle).
  pose proof (backward_before_index_run index x) as Hfirst.
  assert (∀ sid, _backward_before_index index x =
            (Ok tt, set_requests (λ l, l ++ [(EditAtReq sid, OnEditAtRes index)])
                      (failed_cleared x)) →
          ∃ new, requests x' = requests x ++ new ∧ _doc x' = _doc x ∧ o = Ok tt ∧
                 edit_at_indices new = index :: retried_indices (sentences (_doc x)) errs)
    as Hsent.
  { intros sid Hb1. rewrite (bind_Ok _ _ _ _ _ Hb1) in Hrun.
    set (x1 := set_requests (λ l, l ++ [(EditAtReq sid, OnEditAtRes index)])
                 (failed_cleared x)) in *.
    assert (_doc x1 = _doc x) as Hdoc by apply failed_cleared_doc.
    destruct (deliver_edit_at_errors_run errs x1 index) as (x2 & new & Hrun2 & Hd & Hr & Hi).
    { by rewrite Hdoc. }
    { apply pending_callback_sent. }
    { by rewrite Hdoc. }
    rewrite Hrun2 in Hrun. injection Hrun as <- <-.
    exists ((EditAtReq sid, OnEditAtRes index) :: new). split_and!.
    - rewrite Hr. subst x1. cbn [requests set_requests].
      by rewrite failed_cleared_requests, <- app_assoc.
    - congruence.
    - done.
    - rewrite Hdoc in Hi. cbn. f_equal. exact Hi. }
  assert (∀ new, edit_at_indices new = index :: retried_indices (sentences (_doc x)) errs →
                 NoDup (edit_at_indices new)) as Hnodup.
  { intros new ->. apply NoDup_cons. split; [|done]. intros Hin%Hb. lia. }
  destruct (decide (index = 0)) as [->|Hne].
  - destruct (Hsent _ Hfirst) as (new & Hr & Hd & -> & Hi).
    exists new. split_and!; try done; [by left; rewrite Hi|by apply Hnodup].
  - destruct (py_getitem (sentences (_doc x)) (index - 1)) as [s|e] eqn:Eg.
    + destruct (Hsent _ Hfirst) as (new & Hr & Hd & -> & Hi).
      exists new. split_and!; try done; [by left; rewrite Hi|by apply Hnodup].
    + rewrite (bind_Raise _ _ _ _ _ Hfirst) in Hrun. injection Hrun as <- <-.
      apply py_getitem_Raise in Eg as Heq. subst e.
      exists []. split_and!; try done; [by rewrite app_nil_r| |constructor].
      right. split_and!; try done. intros [Hlo Hhi].
      destruct (lookup_lt_is_Some_2 (sentences (_doc x)) (Z.to_nat (index - 1)))
        as [s Hs]; [lia|].
      apply py_getitem_nonneg in Hs. rewrite Z2Nat.id in Hs by lia. congruence.
Qed.

(** A rollback before index 2 of [stm_ABC] that the checker refuses, naming
    state id 2, held at position 0: one retry, at index 1. *)
Lemma rollback_retry_convergence_witness :
  reachable (_doc stm_ABC) ∧
  chain_pre (sentences (_doc stm_ABC)) 2 [mkErrorInfo None 2 "not editable"] ∧
  (_backward_before_index 2 ;;
   deliver_edit_at_errors [mkErrorInfo None 2 "not editable"]) stm_ABC
  = (Ok tt, ((_backward_before_index 2 ;;
              deliver_edit_at_errors [mkErrorInfo None 2 "not editable"]) stm_ABC).2) ∧
  (length [mkErrorInfo None 2 "not editable"] ≤ length (sentences (_doc stm_ABC)))%nat.
Proof.
  assert (chain_pre (sentences (_doc stm_ABC)) 2 [mkErrorInfo None 2 "not editable"])
    as Hpre.
  { exists 0%nat. split_and!; [vm_compute; reflexivity|lia|exact I]. }
  assert ((_backward_before_index 2 ;;
           deliver_edit_at_errors [mkErrorInfo None 2 "not editable"]) stm_ABC
          = (Ok tt, ((_backward_before_index 2 ;;
                      deliver_edit_at_errors [mkErrorInfo None 2 "not editable"])
                       stm_ABC).2)) as Hrun
    by (vm_compute; reflexivity).
  split_and!; [apply stm_ABC_reachable|exact Hpre|exact Hrun|].
  destruct (rollback_retry_convergence stm_ABC 2 [mkErrorInfo None 2 "not editable"]
              _ _ stm_ABC_reachable Hpre Hrun)
    as (new & _ & _ & _ & _ & _ & Hle).
  exact Hle.
Defined.

(** The lookup of the reported state id 2 in [stm_ABC]. *)
Lemma state_id_lookups_partial_witness :
  reachable (_doc stm_ABC) ∧
  ((on_edit_at_res 2 (mkEditAtRes (Some (mkErrorInfo None 2 "not editable")) false None)
                   stm_ABC).1 = Ok tt
   ↔ live (_doc stm_ABC) (Some 2)).
Proof.
  split; [apply stm_ABC_reachable|].
  destruct (state_id_lookups_partial stm_ABC stm_ABC_reachable) as (_ & _ & Herr).
  apply (Herr 2 (mkErrorInfo None 2 "not editable") false None).
Defined.

(** *** The focused rollback *)

(** For [1 <= index <= qed_index] the focused branch does what its comment
    says: the sentences at positions [index .. qed_index] are un-highlighted
    and removed and the tip becomes the sentence at position [index - 1]. *)
Lemma focused_rollback_from_index_one x index q (qed_index : nat) s_q :
  doc_wf (_doc x) →
  sentences (_doc x) !! qed_index = Some s_q →
  q = Some (state_id s_q) →
  1 ≤ index ≤ Z.of_nat qed_index →
  let ss := sentences (_doc x) in
  let removed := take (S qed_index - Z.to_nat index) (drop (Z.to_nat index) ss) in
  ∃ x' t, on_edit_at_res index (mkEditAtRes None true q) x = (Ok tt, x') ∧
          sentences (_doc x') = take (Z.to_nat index) ss ++ drop (S qed_index) ss ∧
          ss !! (Z.to_nat index - 1)%nat = Some t ∧
          _tip_sentence x' = Some t ∧
          actions x' = actions x ++ (UnhlSentence <$> removed) ∧
          (∀ s, s ∈ removed → store x' !! obj s = None) ∧
          doc_wf (_doc x').
Proof.
  intros Hwf Hq -> Hidx ss removed.
  assert (s_q ∈ ss) as Hin by (by eapply list_elem_of_lookup_2).
  assert (qed_index < length ss)%nat as Hlt by (by eapply lookup_lt_Some).
  rewrite on_edit_at_focused. cbn [state_id_map_getitem].
  unfold Document.dict_getitem. rewrite (wf_map_of_seq _ _ _ Hwf s_q Hin).
  rewrite (py_index_NoDup _ _ _ (wf_nodup _ _ _ Hwf) Hq). cbv zeta.
  set (sl := Slice (Some index) (Some (Z.of_nat qed_index + 1))).
  assert (slice_lo (length ss) sl = Z.to_nat index) as Hlo.
  { unfold slice_lo, slice_bound, sl. simpl. rewrite decide_False by lia. f_equal. lia. }
  assert (slice_hi (length ss) sl = S qed_index) as Hhi.
  { unfold slice_hi, slice_bound, sl. simpl. rewrite decide_False by lia. lia. }
  assert (py_slice ss sl = removed) as Hslice.
  { unfold py_slice. by rewrite Hlo, Hhi. }
  assert (py_del_slice ss sl = take (Z.to_nat index) ss ++ drop (S qed_index) ss) as Hdel.
  { unfold py_del_slice. rewrite Hlo, Hhi. do 2 f_equal. lia. }
  destruct (remove_by_index_run sl (_doc x) Hwf) as (d1 & -> & Hs1 & _ & Hwf1).
  fold ss in Hs1. rewrite Hdel in Hs1.
  destruct (lookup_lt_is_Some_2 ss (Z.to_nat index - 1)) as [t Ht]; [lia|].
  assert (py_getitem (sentences d1) (index - 1) = Ok t) as Hget.
  { replace (index - 1) with (Z.of_nat (Z.to_nat index - 1)) by lia.
    apply py_getitem_nonneg. rewrite Hs1, lookup_app_l.
    - rewrite lookup_take_lt by lia. done.
    - rewrite length_take. lia. }
  rewrite Hget. fold ss. rewrite Hslice.
  eexists _, t. split; [reflexivity|]. cbn.
  split_and!; try done.
  intros s Hs. by apply (unhighlighted_store removed x s).
Qed.

(** C3. The focused branch at [index = 0], evaluated on [stm_ABC] (three
    sentences with the state ids 2, 3 and 4, no tip).  With the closing
    state id 3 the first two sentences are removed and the tip becomes
    [sC], the last sentence left, which lies behind the removed range and
    not before position 0.  With the closing state id 4 every sentence is
    removed and reading [sentences[-1]] raises [IndexError] before [done]
    is called, so the semaphore of the task thread is never released. *)
Theorem focused_rollback_at_index_zero :
  (on_edit_at_res 0 (mkEditAtRes None true (Some 3)) stm_ABC).1 = Ok tt ∧
  sentences (_doc (on_edit_at_res 0 (mkEditAtRes None true (Some 3)) stm_ABC).2) = [sC] ∧
  _tip_sentence (on_edit_at_res 0 (mkEditAtRes None true (Some 3)) stm_ABC).2 = Some sC ∧
  (on_edit_at_res 0 (mkEditAtRes None true (Some 4)) stm_ABC).1 = Raise IndexError ∧
  sentences (_doc (on_edit_at_res 0 (mkEditAtRes None true (Some 4)) stm_ABC).2) = [] ∧
  task_done (_task_thread (on_edit_at_res 0 (mkEditAtRes None true (Some 4)) stm_ABC).2)
    = task_done (_task_thread stm_ABC).
Proof. vm_compute. done. Qed.

(** *** Scenarios *)

(** An accepted [forward] schedules the Add task and then the Goal task. *)
Example forward_schedules :
  _schedule_queue (_task_thread (forward rD stm_ABC).2) = [TaskForwardOne rD; TaskGetGoals].
Proof. vm_compute. reflexivity. Qed.

(** Init answers 1, a first forward answers state id 2 without next state:
    one sentence, no tip, and the last stop is the stop of its region. *)
Example first_forward :
  let x := ((on_init_res (mkInitRes None (Some 1)) ;;
             on_add_res rA (add_ok 2 None)) (STM_init 1)).2 in
  sentences (_doc x) = [sA] ∧ _tip_sentence x = None ∧ get_last_stop x = stop rA.
Proof. vm_compute. done. Qed.

(** An EditAt before index 0 answered without focus removes every sentence
    and clears the tip. *)
Example unfocused_rollback_to_start :
  let x := (on_edit_at_res 0 (mkEditAtRes None false None) stm_ABC).2 in
  sentences (_doc x) = [] ∧ _tip_sentence x = None.
Proof. vm_compute. done. Qed.

(** * Further properties of the code *)

(** ** _Document: queries, insertion, removal *)

Lemma elem_of_sentence_lines s ln :
  ln ∈ sentence_lines s ↔ line (start (region s)) ≤ ln ≤ line (stop (region s)).
Proof. unfold sentence_lines, py_range. rewrite elem_of_seqZ. lia. Qed.

(** X1. On a reachable document [iter_covering_line(line)] yields, without
    repetition, exactly the sentences of the sequence whose region has
    [start.line <= line <= stop.line], and [iter_starting_line(line)] exactly
    those among them that start on [line]. *)
Theorem iter_covering_line_spec d ln :
  reachable d →
  NoDup (Document.iter_covering_line d ln) ∧
  (∀ s, s ∈ Document.iter_covering_line d ln ↔
        s ∈ sentences d ∧ line (start (region s)) ≤ ln ≤ line (stop (region s))) ∧
  (∀ s, s ∈ Document.iter_starting_line d ln ↔
        s ∈ sentences d ∧ line (start (region s)) = ln ∧ ln ≤ line (stop (region s))).
Proof.
  intros Hwf%reachable_wf.
  assert (∀ s, s ∈ Document.iter_covering_line d ln ↔
               s ∈ sentences d ∧ ln ∈ sentence_lines s) as Hcov.
  { intros s. unfold Document.iter_covering_line. split.
    - destruct (line_map d !! ln) as [l|] eqn:El; simpl; [|by intros ?%elem_of_nil].
      intros Hs. by apply (wf_seq_of_lines _ _ _ Hwf ln l El).
    - intros [Hs Hln]. destruct (wf_lines_of_seq _ _ _ Hwf s ln Hs Hln) as (l & -> & Hl).
      done. }
  split_and!.
  - unfold Document.iter_covering_line.
    destruct (line_map d !! ln) as [l|] eqn:El; simpl; [|constructor].
    by apply (wf_seq_of_lines _ _ _ Hwf ln l El).
  - intros s. rewrite Hcov, elem_of_sentence_lines. done.
  - intros s. unfold Document.iter_starting_line. rewrite list_elem_of_filter.
    fold (Document.iter_covering_line d ln). rewrite Hcov, elem_of_sentence_lines.
    split; [intros (? & ? & ?)|intros (? & ? & ?)]; split_and!; try done; lia.
Qed.

Lemma iter_covering_line_spec_witness :
  reachable doc_ABC ∧
  (sB ∈ Document.iter_covering_line doc_ABC 3 ↔
   sB ∈ sentences doc_ABC ∧ line (start (region sB)) ≤ 3 ≤ line (stop (region sB))).
Proof.
  split; [apply doc_ABC_reachable|].
  destruct (iter_covering_line_spec doc_ABC 3 doc_ABC_reachable) as (_ & Hcov & _).
  apply (Hcov sB).
Defined.

(** X2. On a reachable document [remove_by_index] never raises, whatever the
    slice (bounds that are negative or past the end are clamped as Python
    clamps them): the sequence loses exactly the slice, each removed
    sentence is gone from the state-id map and from every line list, the
    sentences that stay keep their map entry, and the result is reachable
    again. *)
Theorem remove_by_index_total d sl :
  reachable d →
  ∃ d', Document.remove_by_index sl d = (Ok tt, d') ∧
        sentences d' = py_del_slice (sentences d) sl ∧
        (∀ s, s ∈ py_slice (sentences d) sl →
              (s ∉ sentences d') ∧ state_id_map d' !! state_id s = None ∧
              ∀ ln, s ∉ Document.iter_covering_line d' ln) ∧
        (∀ s, s ∈ sentences d' → state_id_map d' !! state_id s = Some s) ∧
        reachable d'.
Proof.
  intros Hr.
  destruct (remove_by_index_post d sl Hr) as (d' & Hrun & Hs & Hrem & Hkeep & Hr').
  exists d'. split_and!; assumption.
Qed.

Lemma remove_by_index_total_witness :
  reachable doc_ABC ∧
  ∃ d', Document.remove_by_index (Slice (Some (-2)) (Some 7)) doc_ABC = (Ok tt, d') ∧
        sentences d' = [sA].
Proof.
  split; [apply doc_ABC_reachable|].
  destruct (remove_by_index_total doc_ABC (Slice (Some (-2)) (Some 7)) doc_ABC_reachable)
    as (d' & Hrun & Hs & _).
  exists d'. split; [exact Hrun|]. rewrite Hs. vm_compute. reflexivity.
Defined.

Lemma py_slice_past_end {A} (l : list A) i stop_ :
  Z.of_nat (length l) ≤ i → py_slice l (Slice (Some i) stop_) = [].
Proof.
  intros Hi. unfold py_slice, slice_lo, slice_bound. cbn [slice_start].
  destruct (decide (i < 0)); [lia|].
  rewrite drop_ge; [by rewrite take_nil|]. lia.
Qed.

Lemma remove_by_index_empty_raw d sl :
  py_slice (sentences d) sl = [] →
  Document.remove_by_index sl d = (Ok tt, d).
Proof.
  intros Hemp. unfold Document.remove_by_index. rewrite bind_get, Hemp.
  cbn [for_each]. rewrite bind_ret. unfold modify. f_equal.
  destruct d as [ss m lm]. unfold set_sentences. cbn [sentences state_id_map line_map] in *.
  f_equal. pose proof (py_slice_split ss sl) as Hsplit. rewrite Hemp in Hsplit.
  simpl in Hsplit. unfold py_del_slice. by rewrite <- Hsplit.
Qed.

(** X3. A slice that selects nothing makes [remove_by_index] return with the
    document exactly as it was, on any document at all; this is the case of
    a start at or past [len(sentences)]. *)
Theorem remove_by_index_empty_slice d sl :
  py_slice (sentences d) sl = [] →
  Document.remove_by_index sl d = (Ok tt, d) ∧
  (∀ i stop_, Z.of_nat (length (sentences d)) ≤ i →
     Document.remove_by_index (Slice (Some i) stop_) d = (Ok tt, d)).
Proof.
  intros Hemp. split; [by apply remove_by_index_empty_raw|].
  intros i stop_ Hi. apply remove_by_index_empty_raw. by apply py_slice_past_end.
Qed.

Lemma remove_by_index_empty_slice_witness :
  py_slice (sentences doc_ABC) (Slice (Some 3) None) = [] ∧
  Document.remove_by_index (Slice (Some 3) None) doc_ABC = (Ok tt, doc_ABC).
Proof.
  assert (py_slice (sentences doc_ABC) (Slice (Some 3) None) = []) as H
    by (apply py_slice_past_end; vm_compute; discriminate).
  split; [exact H|]. by destruct (remove_by_index_empty_slice doc_ABC _ H) as [Hrun _].
Defined.

Lemma py_index_middle {A} `{EqDecision A} (l1 l2 : list A) t :
  t ∉ l1 → py_index (l1 ++ t :: l2) t = Ok (length l1).
Proof.
  intros Ht. apply py_index_Ok. split.
  - by rewrite lookup_app_r, Nat.sub_diag by lia.
  - intros j Hj Hl. rewrite lookup_app_l in Hl by done.
    apply Ht. by eapply list_elem_of_lookup_2.
Qed.

Lemma py_insert_middle {A} (l1 l2 : list A) t s :
  py_insert (l1 ++ t :: l2) (length l1 + 1) s = l1 ++ t :: s :: l2.
Proof.
  unfold py_insert.
  replace (l1 ++ t :: l2) with ((l1 ++ [t]) ++ l2) by (by rewrite <- app_assoc).
  replace (length l1 + 1)%nat with (length (l1 ++ [t])) by (rewrite length_app; simpl; lia).
  rewrite take_app_length, drop_app_length. by rewrite <- app_assoc.
Qed.

(** X4. [add(sentence, tip)] raises [ValueError] exactly when a tip is given
    that is not in the sequence, and then nothing has changed.  Otherwise it
    returns: without a tip the sentence is appended at the end, with a tip
    it is placed right behind the first occurrence of the tip; the sentence
    is stored in the state-id map under its state id, whatever was there
    before, and it is appended to the line list of every line from
    [start.line] to [stop.line], the other lists staying as they were. *)
Theorem add_places_behind_tip d s tip :
  match tip with
  | None =>
      ∃ d', Document.add s tip d = (Ok tt, d') ∧ sentences d' = sentences d ++ [s]
  | Some t =>
      (t ∉ sentences d → Document.add s tip d = (Raise ValueError, d)) ∧
      (∀ l1 l2, sentences d = l1 ++ t :: l2 → t ∉ l1 →
         ∃ d', Document.add s tip d = (Ok tt, d') ∧ sentences d' = l1 ++ t :: s :: l2)
  end ∧
  (∀ d', Document.add s tip d = (Ok tt, d') →
     state_id_map d' = <[state_id s := s]> (state_id_map d) ∧
     ∀ ln, Document.iter_covering_line d' ln =
           if decide (line (start (region s)) ≤ ln ≤ line (stop (region s)))
           then Document.iter_covering_line d ln ++ [s]
           else Document.iter_covering_line d ln).
Proof.
  pose proof (add_run s tip d) as Hrun. split.
  - destruct tip as [t|]; simpl in Hrun.
    + split.
      * intros Ht. by rewrite (py_index_not_elem_of _ _ Ht) in Hrun.
      * intros l1 l2 Hs Ht. rewrite Hs in Hrun. rewrite (py_index_middle _ _ _ Ht) in Hrun.
        destruct Hrun as (d' & Hadd & Hs' & _). exists d'. split; [done|].
        by rewrite Hs', py_insert_middle.
    + destruct Hrun as (d' & Hadd & Hs' & _). exists d'. split; [done|].
      by rewrite Hs', py_insert_end.
  - intros d' Hadd. destruct (add_position d tip) as [index|e].
    + destruct Hrun as (d1 & Hadd1 & _ & Hm & Hl). rewrite Hadd1 in Hadd.
      injection Hadd as <-. split; [done|]. intros ln.
      unfold Document.iter_covering_line. rewrite Hl.
      destruct (decide (ln ∈ sentence_lines s)) as [Hin|Hnin].
      * rewrite decide_True by (by apply elem_of_sentence_lines). done.
      * rewrite decide_False; [done|]. by rewrite <- elem_of_sentence_lines.
    + rewrite Hrun in Hadd. done.
Qed.

Lemma filter_ne_snoc {A} `{EqDecision A} (l : list A) s :
  s ∉ l → filter (λ y, y ≠ s) (l ++ [s]) = l.
Proof.
  intros Hs. rewrite filter_app, filter_cons_False, filter_nil, app_nil_r by tauto.
  apply filter_all. intros x Hx ->. done.
Qed.

Lemma remove_lines_run_exact s lns d :
  NoDup lns →
  (∀ ln, ln ∈ lns → ∃ l, line_map d !! ln = Some l ∧ NoDup l ∧ s ∈ l) →
  ∃ d', for_each lns (Document.remove_line s) d = (Ok tt, d') ∧
        sentences d' = sentences d ∧ state_id_map d' = state_id_map d ∧
        ∀ ln, line_map d' !! ln =
              if decide (ln ∈ lns) then filter (λ y, y ≠ s) <$> line_map d !! ln
              else line_map d !! ln.
Proof.
  revert d. induction lns as [|x lns IH]; intros d Hnd Hall.
  - exists d. split_and!; done.
  - apply NoDup_cons in Hnd as [Hx Hnd].
    destruct (Hall x) as (l & El & Hndl & Hsl); [apply list_elem_of_here|].
    set (d1 := set_line_map <[x := filter (λ y, y ≠ s) l]> d).
    assert (Document.remove_line s x d = (Ok tt, d1)) as Hstep.
    { unfold Document.remove_line, Document.dict_getitem. rewrite bind_get, El.
      rewrite bind_lift, bind_lift. by rewrite (py_remove_filter _ _ Hndl Hsl). }
    destruct (IH d1 Hnd) as (d' & Hrun & Hs & Hm & Hl).
    { intros ln Hln. subst d1. cbn [line_map set_line_map]. rewrite lookup_insert_ne.
      - apply Hall. by apply list_elem_of_further.
      - by intros ->. }
    exists d'. split_and!; try done.
    + cbn [for_each]. by rewrite (bind_Ok _ _ _ _ _ Hstep).
    + intros ln. rewrite Hl. subst d1. cbn [line_map set_line_map].
      destruct (decide (ln = x)) as [->|Hne].
      * rewrite decide_False by done. rewrite decide_True by apply list_elem_of_here.
        by rewrite lookup_insert_eq, El.
      * rewrite lookup_insert_ne by done.
        destruct (decide (ln ∈ lns)) as [Hin|Hnin].
        -- rewrite decide_True; [done|]. by apply list_elem_of_further.
        -- rewrite decide_False; [done|]. rewrite elem_of_cons. tauto.
Qed.

(** X5. Adding a sentence with a fresh state id at the end and then removing
    from its position on (the pair a forward and an unfocused backward
    perform) is a round trip for the sequence and the state-id map, and for
    what [iter_covering_line] yields on every line; the line map itself
    keeps an empty list for each line of the sentence that had no entry
    before, since [remove_by_index] never deletes a key of the line map. *)
Theorem add_remove_round_trip d s :
  reachable d →
  state_id_map d !! state_id s = None →
  ∃ d1 d2,
    Document.add s None d = (Ok tt, d1) ∧
    Document.remove_by_index (Slice (Some (Z.of_nat (length (sentences d)))) None) d1
      = (Ok tt, d2) ∧
    sentences d2 = sentences d ∧
    state_id_map d2 = state_id_map d ∧
    (∀ ln, Document.iter_covering_line d2 ln = Document.iter_covering_line d ln) ∧
    (∀ ln, line_map d2 !! ln =
           if decide (ln ∈ sentence_lines s) then Some (default [] (line_map d !! ln))
           else line_map d !! ln).
Proof.
  intros Hwf%reachable_wf Hfresh.
  assert (s ∉ sentences d) as Hs_new.
  { intros Hin. apply (wf_map_of_seq _ _ _ Hwf) in Hin. congruence. }
  pose proof (add_run s None d) as Hadd. simpl in Hadd.
  destruct Hadd as (d1 & Hadd & Hs1 & Hm1 & Hl1). rewrite py_insert_end in Hs1.
  set (sl := Slice (Some (Z.of_nat (length (sentences d)))) None).
  assert (slice_lo (length (sentences d1)) sl = length (sentences d)) as Hlo.
  { unfold slice_lo, slice_bound, sl. cbn [slice_start].
    rewrite decide_False by lia. rewrite Hs1, length_app. simpl. lia. }
  assert (slice_hi (length (sentences d1)) sl = length (sentences d1)) as Hhi by done.
  assert (py_slice (sentences d1) sl = [s]) as Hslice.
  { unfold py_slice. rewrite Hlo, Hhi, Hs1, drop_app_length.
    rewrite length_app. simpl. replace (length (sentences d) + 1 - length (sentences d))%nat
      with 1%nat by lia. done. }
  assert (py_del_slice (sentences d1) sl = sentences d) as Hdel.
  { unfold py_del_slice. rewrite Hlo, Hhi, Hs1, take_app_length.
    rewrite drop_ge; [by rewrite app_nil_r|]. lia. }
  set (d1' := set_state_id_map (delete (state_id s)) d1).
  destruct (remove_lines_run_exact s (sentence_lines s) d1')
    as (d1'' & Hloop & Hs'' & Hm'' & Hl''); [apply py_range_NoDup| |].
  { intros ln Hln. subst d1'. cbn [line_map set_state_id_map].
    rewrite Hl1, decide_True by done. eexists. split; [done|]. split.
    - apply NoDup_app. split_and!; [|  |apply NoDup_singleton].
      + destruct (line_map d !! ln) as [l|] eqn:El; simpl; [|constructor].
        by apply (wf_seq_of_lines _ _ _ Hwf ln l El).
      + intros x Hx ->%list_elem_of_singleton. apply Hs_new.
        destruct (line_map d !! ln) as [l|] eqn:El; simpl in Hx;
          [|by apply elem_of_nil in Hx].
        by apply (wf_seq_of_lines _ _ _ Hwf ln l El).
    - apply elem_of_app. right. apply list_elem_of_here. }
  assert (∀ ln, line_map d1'' !! ln =
                if decide (ln ∈ sentence_lines s) then Some (default [] (line_map d !! ln))
                else line_map d !! ln) as Hlines.
  { intros ln. rewrite Hl''. subst d1'. cbn [line_map set_state_id_map]. rewrite Hl1.
    destruct (decide (ln ∈ sentence_lines s)); [|done]. simpl. f_equal.
    apply filter_ne_snoc.
    destruct (line_map d !! ln) as [l|] eqn:El; simpl; [|apply not_elem_of_nil].
    intros Hx. apply Hs_new. by apply (wf_seq_of_lines _ _ _ Hwf ln l El). }
  exists d1, (set_sentences (λ l, py_del_slice l sl) d1''). split_and!.
  - exact Hadd.
  - unfold Document.remove_by_index. rewrite bind_get, Hslice. cbn [for_each].
    assert (Document.del_state_id (state_id s) d1 = (Ok tt, d1')) as Hdelid.
    { unfold Document.del_state_id, Document.dict_getitem. rewrite bind_get, Hm1.
      by rewrite lookup_insert_eq. }
    assert ((Document.del_state_id (state_id s) ;;
             for_each (sentence_lines s) (Document.remove_line s)) d1 = (Ok tt, d1''))
      as Hone by (by rewrite (bind_Ok _ _ _ _ _ Hdelid)).
    unfold bind at 1. unfold bind at 1. rewrite Hone. reflexivity.
  - cbn [sentences set_sentences]. rewrite Hs''. exact Hdel.
  - cbn [state_id_map set_sentences]. rewrite Hm''. subst d1'.
    cbn [state_id_map set_state_id_map]. rewrite Hm1.
    by rewrite delete_insert_eq, delete_id.
  - intros ln. unfold Document.iter_covering_line. cbn [line_map set_sentences].
    rewrite Hlines. by destruct (decide (ln ∈ sentence_lines s)).
  - exact Hlines.
Qed.

Lemma add_remove_round_trip_witness :
  reachable doc_ABC ∧
  state_id_map doc_ABC !! state_id sD = None ∧
  ∃ d1 d2,
    Document.add sD None doc_ABC = (Ok tt, d1) ∧
    Document.remove_by_index (Slice (Some 3) None) d1 = (Ok tt, d2) ∧
    sentences d2 = sentences doc_ABC ∧
    state_id_map d2 = state_id_map doc_ABC.
Proof.
  assert (state_id_map doc_ABC !! state_id sD = None) as Hfresh by (vm_compute; reflexivity).
  split_and!; [apply doc_ABC_reachable|exact Hfresh|].
  destruct (add_remove_round_trip doc_ABC sD doc_ABC_reachable Hfresh)
    as (d1 & d2 & Hadd & Hrm & Hs & Hm & _).
  exists d1, d2. split_and!; assumption.
Defined.

(** ** The STM keeps its invariant *)

Lemma keeps_ret {A} (a : A) : keeps (ret a).
Proof. intros x o x' [= <- <-]. done. Qed.

Lemma keeps_get : keeps get.
Proof. intros x o x' [= <- <-]. done. Qed.

Lemma keeps_lift {A} (r : outcome A) : keeps (lift r).
Proof. intros x o x' [= <- <-]. done. Qed.

Lemma keeps_raise {A} e : keeps (@raise STM A e).
Proof. intros x o x' [= <- <-]. done. Qed.

Lemma keeps_bind {A B} (m : M STM A) (k : A → M STM B) :
  keeps m → (∀ a, keeps (k a)) → keeps (bind m k).
Proof.
  intros Hm Hk x o x' Hrun. unfold bind in Hrun.
  destruct (m x) as [[a|e] x1] eqn:Em.
  - destruct (Hm _ _ _ Em) as (E1 & E2 & E3 & E4).
    destruct (Hk a _ _ _ Hrun) as (F1 & F2 & F3 & F4).
    split_and!; congruence.
  - injection Hrun as <- <-. by apply (Hm _ _ _ Em).
Qed.

Lemma keeps_finally {A} (c : M STM unit) (m : M STM A) :
  keeps c → keeps m → keeps (_finally_call c m).
Proof.
  intros Hc Hm x o x' Hrun. unfold _finally_call in Hrun.
  destruct (m x) as [[a|e] x1] eqn:Em;
    destruct (Hm _ _ _ Em) as (E1 & E2 & E3 & E4);
    destruct (c x1) as [[[]|e'] x2] eqn:Ec;
    destruct (Hc _ _ _ Ec) as (F1 & F2 & F3 & F4);
    injection Hrun as <- <-; split_and!; congruence.
Qed.

Lemma keeps_for_each {A} (xs : list A) (body : A → M STM unit) :
  (∀ a, keeps (body a)) → keeps (for_each xs body).
Proof.
  intros Hb. induction xs as [|a xs IH]; [apply keeps_ret|].
  cbn [for_each]. apply keeps_bind; [apply Hb|]. intros _. apply IH.
Qed.

Lemma keeps_on_task_thread {A} (m : M _SequentialTaskThread A) : keeps (on_task_thread m).
Proof.
  intros x o x' Hrun. unfold on_task_thread, zoom in Hrun.
  destruct (m (_task_thread x)) as [o1 t]. by injection Hrun as <- <-.
Qed.

Lemma keeps_handle_action a : keeps (handle_action a).
Proof. intros x o x' [= <- <-]. done. Qed.

Lemma keeps_call_async req cb : keeps (call_async req cb).
Proof. intros x o x' [= <- <-]. done. Qed.

Lemma keeps_highlight s st : keeps (SentenceM.highlight s st).
Proof. intros x o x' [= <- <-]. done. Qed.

Lemma keeps_last_has_error : keeps last_has_error.
Proof.
  unfold last_has_error. apply keeps_bind; [apply keeps_get|]. intros x.
  destruct (Document.bool_ (_doc x)); [|apply keeps_ret].
  apply keeps_bind; [apply keeps_lift|]. intros s. apply keeps_ret.
Qed.

Lemma keeps_schedule t : keeps (schedule t).
Proof. apply keeps_on_task_thread. Qed.

Lemma keeps_done : keeps done.
Proof. apply keeps_on_task_thread. Qed.

Lemma keeps_forward sregion : keeps (forward sregion).
Proof.
  unfold forward. apply keeps_bind; [apply keeps_last_has_error|]. intros [].
  - apply keeps_handle_action.
  - apply keeps_bind; [apply keeps_schedule|]. intros _. apply keeps_schedule.
Qed.

Lemma keeps_forward_many sregions : keeps (forward_many sregions).
Proof.
  unfold forward_many. apply keeps_bind; [apply keeps_last_has_error|]. intros [].
  - apply keeps_handle_action.
  - apply keeps_bind; [|intros _; apply keeps_schedule].
    apply keeps_for_each. intros r. apply keeps_schedule.
Qed.

Lemma keeps_feedback fb : keeps (FeedbackHandler.__call__ fb).
Proof.
  unfold FeedbackHandler.__call__. apply keeps_bind; [apply keeps_get|]. intros x.
  generalize (FeedbackHandler.lookup_sentence x fb). intros sentence.
  unfold FeedbackHandler._FEEDBACK_HANDLERS, FeedbackHandler.dispatch.
  destruct (isinstance (content fb) ErrorMsgT).
  { apply keeps_bind; [|intros _; apply keeps_ret].
    unfold FeedbackHandler._on_error_msg.
    destruct sentence; [apply keeps_highlight|apply keeps_handle_action]. }
  destruct (isinstance (content fb) MessageT).
  { apply keeps_bind; [|intros _; apply keeps_ret].
    unfold FeedbackHandler._on_message.
    destruct (decide _); [|apply keeps_handle_action].
    destruct sentence; [apply keeps_highlight|apply keeps_handle_action]. }
  destruct (isinstance (content fb) ProcessedT).
  { apply keeps_bind; [|intros _; apply keeps_ret].
    unfold FeedbackHandler._on_processed.
    destruct sentence; [apply keeps_highlight|apply keeps_ret]. }
  destruct (isinstance (content fb) AddedAxiomT).
  { apply keeps_bind; [|intros _; apply keeps_ret].
    unfold FeedbackHandler._on_added_axiom.
    destruct sentence; [apply keeps_highlight|apply keeps_ret]. }
  apply keeps_ret.
Qed.

Lemma keeps_on_goal_res res : keeps (on_goal_res res).
Proof.
  unfold on_goal_res. apply keeps_finally; [apply keeps_done|].
  destruct (goal_error res); [apply keeps_ret|apply keeps_handle_action].
Qed.

Lemma keeps_on_init_res res : keeps (on_init_res res).
Proof.
  unfold on_init_res. apply keeps_finally; [apply keeps_done|].
  destruct (init_error res); [apply keeps_raise|].
  intros x o x' [= <- <-]. done.
Qed.

Lemma stm_inv_shrink x x' :
  stm_inv x →
  reachable (_doc x') →
  (∀ s, s ∈ sentences (_doc x') → s ∈ sentences (_doc x)) →
  (next_obj x ≤ next_obj x')%nat →
  (_failed_sentence x' = _failed_sentence x ∨ _failed_sentence x' = None) →
  (_tip_sentence x' = _tip_sentence x ∨ _tip_sentence x' = None ∨
   ∃ t, _tip_sentence x' = Some t ∧ t ∈ sentences (_doc x)) →
  stm_inv x'.
Proof.
  intros [Hd Ho Hf Ht] Hd' Hsub Hn Hfail Htip. split.
  - done.
  - intros s Hs. apply Hsub, Ho in Hs. lia.
  - intros s Hs. destruct Hfail as [E|E]; rewrite E in Hs; [|done].
    destruct (Hf s Hs) as [? Hnot]. split; [lia|]. intros Hin. by apply Hnot, Hsub.
  - intros t Hts. destruct Htip as [E|[E|(t' & E & Hin)]]; rewrite E in Hts.
    + apply Ht in Hts. lia.
    + done.
    + injection Hts as <-. apply Ho in Hin. lia.
Qed.

Lemma stm_inv_keeps {A} (m : M STM A) x o x' :
  keeps m → stm_inv x → m x = (o, x') → stm_inv x'.
Proof.
  intros Hk Hinv Hrun. destruct (Hk _ _ _ Hrun) as (E1 & E2 & E3 & E4).
  apply (stm_inv_shrink x x' Hinv); rewrite ?E1; try done;
    [apply Hinv|lia|by left|by left].
Qed.

Lemma failed_cleared_next_obj x : next_obj (failed_cleared x) = next_obj x.
Proof. unfold failed_cleared. by destruct (_failed_sentence x). Qed.

Lemma stm_inv_failed_cleared x : stm_inv x → stm_inv (failed_cleared x).
Proof.
  intros Hinv. apply (stm_inv_shrink x _ Hinv).
  - rewrite failed_cleared_doc. apply Hinv.
  - by rewrite failed_cleared_doc.
  - by rewrite failed_cleared_next_obj.
  - right. apply failed_cleared_failed.
  - left. apply failed_cleared_tip.
Qed.

Lemma stm_inv_backward_before_index index x o x' :
  stm_inv x → _backward_before_index index x = (o, x') → stm_inv x'.
Proof.
  intros Hinv. rewrite backward_before_index_run.
  destruct (if decide (index = 0) then _ else _) as [sid|e]; intros [= <- <-]; [|done].
  apply (stm_inv_keeps (call_async (EditAtReq sid) (OnEditAtRes index))
           (failed_cleared x) (Ok tt)); [apply keeps_call_async| |done].
  by apply stm_inv_failed_cleared.
Qed.

Lemma forward_one_task_run sregion x :
  run_task (TaskForwardOne sregion) x =
    (Ok tt, set_requests (λ l, l ++ [(AddReq (command sregion) (-1)
               (predecessor_state_id x) false, OnAddRes sregion)])
              (failed_cleared x)).
Proof.
  unfold run_task. rewrite (bind_Ok _ _ _ _ _ (clear_failed_run x)).
  rewrite (bind_Ok _ _ _ _ _ (tip_state_id_run _)).
  unfold predecessor_state_id.
  by rewrite failed_cleared_tip, failed_cleared_doc, failed_cleared_init.
Qed.

Lemma stm_inv_run_task t x o x' :
  stm_inv x → run_task t x = (o, x') → stm_inv x'.
Proof.
  intros Hinv. destruct t as [|sregion| |mark| |].
  - apply stm_inv_keeps; [apply keeps_call_async|done].
  - rewrite forward_one_task_run. intros [= <- <-].
    apply (stm_inv_keeps (call_async (AddReq (command sregion) (-1)
                            (predecessor_state_id x) false) (OnAddRes sregion))
             (failed_cleared x) (Ok tt)); [apply keeps_call_async| |done].
    by apply stm_inv_failed_cleared.
  - cbn [run_task]. rewrite bind_get. destruct (Document.bool_ (_doc x)).
    + by apply stm_inv_backward_before_index.
    + apply stm_inv_keeps; [apply keeps_done|done].
  - cbn [run_task]. rewrite bind_get.
    destruct (first_stop_after mark 0 (sentences (_doc x))).
    + by apply stm_inv_backward_before_index.
    + apply stm_inv_keeps; [apply keeps_done|done].
  - cbn [run_task]. rewrite bind_get. by apply stm_inv_backward_before_index.
  - apply stm_inv_keeps; [apply keeps_call_async|done].
Qed.

Lemma elem_of_py_del_slice {A} (l : list A) sl s : s ∈ py_del_slice l sl → s ∈ l.
Proof.
  unfold py_del_slice. intros [H|H]%elem_of_app.
  - by apply (subseteq_take _ _ _ H).
  - by apply (subseteq_drop _ _ _ H).
Qed.

Lemma py_getitem_elem_of {A} (l : list A) i x : py_getitem l i = Ok x → x ∈ l.
Proof.
  unfold py_getitem. destruct (decide _); [|done].
  destruct (l !! _) eqn:E; [|done]. intros [= <-]. by eapply list_elem_of_lookup_2.
Qed.

Lemma stm_inv_unhighlighted xs x : stm_inv x → stm_inv (unhighlighted xs x).
Proof.
  intros Hinv. apply (stm_inv_shrink x _ Hinv); try done; [apply Hinv|by left|by left].
Qed.

Lemma stm_inv_removed sl x o d' x' :
  stm_inv x →
  Document.remove_by_index sl (_doc x) = (o, d') →
  _doc x' = d' →
  next_obj x' = next_obj x →
  _failed_sentence x' = _failed_sentence x →
  (_tip_sentence x' = _tip_sentence x ∨ _tip_sentence x' = None ∨
   ∃ t, _tip_sentence x' = Some t ∧ t ∈ sentences d') →
  stm_inv x'.
Proof.
  intros Hinv Hrm Hd Hn Hf Htip.
  destruct (remove_by_index_run sl (_doc x) (reachable_wf _ (inv_doc _ Hinv)))
    as (d1 & Hrm1 & Hs & _ & _).
  rewrite Hrm1 in Hrm. injection Hrm as <- <-.
  assert (∀ s, s ∈ sentences d1 → s ∈ sentences (_doc x)) as Hsub.
  { intros s. rewrite Hs. apply elem_of_py_del_slice. }
  apply (stm_inv_shrink x _ Hinv); rewrite ?Hd; try done.
  - by apply (reachable_step (_doc x) (OpRemoveByIndex sl) (Ok tt) d1 (inv_doc _ Hinv) I).
  - lia.
  - by left.
  - destruct Htip as [E|[E|(t & E & Ht)]]; [by left|by right; left|].
    right. right. exists t. split; [done|]. by apply Hsub.
Qed.

Lemma stm_inv_on_edit_at_res index res x o x' :
  stm_inv x → on_edit_at_res index res x = (o, x') → stm_inv x'.
Proof.
  intros Hinv. destruct res as [[err|] foc q].
  - rewrite on_edit_at_error. cbv zeta.
    assert (stm_inv (notified (ShowMessage (err_message err) "error") x)) as Hinv1.
    { by apply (stm_inv_keeps (handle_action (ShowMessage (err_message err) "error"))
                  x (Ok tt) _ (keeps_handle_action _) Hinv). }
    destruct (Document.dict_getitem _ _) as [s|e]; [|by intros [= <- <-]].
    destruct (py_index _ s) as [i|e]; [|by intros [= <- <-]].
    by apply stm_inv_backward_before_index.
  - destruct foc.
    + rewrite on_edit_at_focused.
      destruct (state_id_map_getitem (_doc x) q) as [qs|e]; [|by intros [= <- <-]].
      destruct (py_index (sentences (_doc x)) qs) as [qi|e]; [|by intros [= <- <-]].
      cbv zeta.
      destruct (Document.remove_by_index _ (_doc x)) as [o1 d1] eqn:Erm.
      destruct o1 as [[]|e].
      * destruct (py_getitem (sentences d1) (index - 1)) as [t|e] eqn:Eg; intros [= <- <-].
        -- apply (stm_inv_removed _ x _ _ _ Hinv Erm); try done.
           right. right. exists t. split; [done|]. by eapply py_getitem_elem_of.
        -- apply (stm_inv_removed _ x _ _ _ Hinv Erm); try done. by left.
      * intros [= <- <-]. apply (stm_inv_removed _ x _ _ _ Hinv Erm); try done. by left.
    + rewrite on_edit_at_unfocused. cbv zeta.
      destruct (Document.remove_by_index _ (_doc x)) as [o1 d1] eqn:Erm.
      destruct o1 as [[]|e]; intros [= <- <-].
      * apply (stm_inv_removed _ x _ _ _ Hinv Erm); try done. by right; left.
      * apply (stm_inv_removed _ x _ _ _ Hinv Erm); try done. by left.
Qed.

Lemma on_add_res_failure sregion res err x :
  add_error res = Some err →
  on_add_res sregion res x =
    (Ok tt, done_called
              (highlighted (mkSentence (next_obj x) sregion 0)
                 (StError (err_location err) (err_message err))
                 (set_failed_sentence (Some (mkSentence (next_obj x) sregion 0))
                    (set_next_obj S (discarded x))))).
Proof. intros Herr. unfold on_add_res, _finally_call. by rewrite Herr. Qed.

Lemma stm_inv_on_add_res sregion res x o x' :
  stm_inv x → event_pre x (AddResponse sregion res) →
  on_add_res sregion res x = (o, x') → stm_inv x'.
Proof.
  intros Hinv Hpre. destruct (add_error res) as [err|] eqn:Herr.
  - rewrite (on_add_res_failure _ _ _ _ Herr). intros [= <- <-].
    destruct Hinv as [Hd Ho Hf Ht]. split; cbn.
    + done.
    + intros s Hs. apply Ho in Hs. lia.
    + intros s [= <-]. cbn. split; [lia|]. intros Hin. apply Ho in Hin. cbn in Hin. lia.
    + intros t Hts. apply Ht in Hts. lia.
  - simpl in Hpre. specialize (Hpre Herr).
    rewrite (on_add_res_success _ _ _ Herr). cbv zeta.
    set (s := mkSentence (next_obj x) sregion (new_state_id res)).
    pose proof (add_run s (_tip_sentence x) (_doc x)) as Hspec.
    destruct (add_position (_doc x) (_tip_sentence x)) as [index|e].
    + destruct Hspec as (d' & Hadd & Hs & Hm & _). rewrite Hadd.
      assert (reachable d') as Hr'.
      { by apply (reachable_step (_doc x) (OpAdd s (_tip_sentence x)) (Ok tt) d'
                    (inv_doc _ Hinv) Hpre). }
      assert (∀ s', s' ∈ sentences d' → s' = s ∨ s' ∈ sentences (_doc x)) as Hmem.
      { intros s'. rewrite Hs, py_insert_perm. apply elem_of_cons. }
      assert (∀ tip, (tip = _tip_sentence x ∨ tip = None ∨
                      ∃ t, tip = Some t ∧ t ∈ sentences d') →
                stm_inv (done_called (set_tip_sentence tip
                           (added s d' (add_message res) x)))) as Hfin.
      { intros tip Htip. destruct Hinv as [Hd Ho Hf Ht]. split; cbn.
        - done.
        - intros s' [->|Hs']%Hmem; [cbn; lia|]. apply Ho in Hs'. lia.
        - intros f Hfs. destruct (Hf f Hfs) as [Hlt Hnot]. split; [lia|].
          intros [->|Hin]%Hmem; [cbn in Hlt; lia|done].
        - intros t Hts. destruct Htip as [->|[->|(t' & -> & Ht')]].
          + apply Ht in Hts. lia.
          + done.
          + injection Hts as <-. apply Hmem in Ht' as [->|Hin]; [cbn; lia|].
            apply Ho in Hin. lia. }
      destruct (truthy (next_state_id res)).
      * destruct (state_id_map_getitem d' (next_state_id res)) as [t|e] eqn:Eg;
          intros [= <- <-].
        -- apply Hfin. right. right. exists t. split; [done|].
           destruct (live_getitem d' (next_state_id res) (reachable_wf _ Hr'))
             as (_ & _ & Hok).
           by apply Hok.
        -- apply (Hfin (_tip_sentence x)). by left.
      * intros [= <- <-]. apply Hfin. by right; left.
    + rewrite Hspec. intros [= <- <-].
      apply (stm_inv_shrink x _ Hinv); cbn; try done; [apply Hinv|lia|by left|by left].
Qed.

Lemma on_lost_run x :
  on_lost x =
    (Ok tt, done_called
              (notified (ConnLost (_bufnr x))
                 (set_doc (λ _, Document.init)
                    (unhighlighted (sentences (_doc x)) (discarded x))))).
Proof.
  unfold on_lost, _finally_call.
  rewrite (bind_Ok _ _ _ _ _ (discard_run x)), bind_get.
  rewrite (bind_Ok _ _ _ _ _ (for_each_unhighlight _ _)). reflexivity.
Qed.

Lemma close_run x :
  close x =
    (Ok tt, set_doc (λ _, Document.init)
              (unhighlighted (sentences (_doc x))
                 (set_task_thread (λ th, mkTaskThread true (_scheduled_task_count th)
                                           (_schedule_queue th) (task_done th)) x))).
Proof.
  unfold close. rewrite bind_modify, bind_get.
  rewrite (bind_Ok _ _ _ _ _ (for_each_unhighlight _ _)). reflexivity.
Qed.

Lemma stm_inv_cleared x x' :
  stm_inv x → _doc x' = Document.init → next_obj x' = next_obj x →
  _failed_sentence x' = _failed_sentence x → _tip_sentence x' = _tip_sentence x →
  stm_inv x'.
Proof.
  intros Hinv Hd Hn Hf Ht. apply (stm_inv_shrink x _ Hinv); rewrite ?Hd.
  - apply reachable_init.
  - by intros s ?%elem_of_nil.
  - lia.
  - by left.
  - by left.
Qed.

Lemma stm_inv_init bufnr : stm_inv (STM_init bufnr).
Proof.
  split; cbn; try done.
  - apply reachable_init.
  - by intros s ?%elem_of_nil.
Qed.

Lemma stm_inv_handle ev x o x' :
  stm_inv x → event_pre x ev → handle ev x = (o, x') → stm_inv x'.
Proof.
  intros Hinv Hpre. destruct ev; cbn [handle].
  - apply stm_inv_keeps; [apply keeps_schedule|done].
  - apply stm_inv_keeps; [apply keeps_forward|done].
  - apply stm_inv_keeps; [apply keeps_forward_many|done].
  - apply stm_inv_keeps; [|done].
    apply keeps_bind; [apply keeps_schedule|intros _; apply keeps_schedule].
  - apply stm_inv_keeps; [|done].
    apply keeps_bind; [apply keeps_schedule|intros _; apply keeps_schedule].
  - rewrite close_run. intros [= <- <-]. by apply (stm_inv_cleared x).
  - unfold thread_run_next. rewrite bind_get.
    destruct (_schedule_queue (_task_thread x)) as [|t q].
    + by intros [= <- <-].
    + rewrite bind_modify. destruct (_closing (_task_thread x)).
      * intros [= <- <-]. apply (stm_inv_shrink x _ Hinv); cbn; try done;
          [apply Hinv|by left|by left].
      * apply stm_inv_run_task.
        apply (stm_inv_shrink x _ Hinv); cbn; try done; [apply Hinv|by left|by left].
  - intros [= <- <-]. apply (stm_inv_shrink x _ Hinv); cbn; try done;
      [apply Hinv|by left|by left].
  - apply stm_inv_keeps; [apply keeps_on_init_res|done].
  - by apply stm_inv_on_add_res.
  - by apply stm_inv_on_edit_at_res.
  - apply stm_inv_keeps; [apply keeps_on_goal_res|done].
  - rewrite on_lost_run. intros [= <- <-]. by apply (stm_inv_cleared x).
  - apply stm_inv_keeps; [|done].
    apply keeps_bind; [apply keeps_feedback|intros _; apply keeps_ret].
Qed.

(** X6. In every state an STM created by [STM(bufnr)] reaches through calls
    of its methods, turns of the worker thread, responses (a successful Add
    response bringing a state id that no sentence of the document holds),
    connection losses and feedback, and also after a handler raised: the
    document is a reachable one, so the state-id map has as many entries as
    the sequence has sentences and holds every sentence under its state id;
    and the failed sentence is neither in the sequence nor a value of the
    state-id map. *)
Theorem stm_reachable_invariant bufnr x :
  stm_reachable bufnr x →
  reachable (_doc x) ∧
  size (state_id_map (_doc x)) = length (sentences (_doc x)) ∧
  (∀ s, s ∈ sentences (_doc x) → state_id_map (_doc x) !! state_id s = Some s) ∧
  (∀ f, _failed_sentence x = Some f →
        (f ∉ sentences (_doc x)) ∧ ∀ k, state_id_map (_doc x) !! k ≠ Some f).
Proof.
  intros Hreach.
  assert (stm_inv x) as Hinv.
  { induction Hreach as [|x ev o x' _ IH Hpre Hrun]; [apply stm_inv_init|].
    by eapply stm_inv_handle. }
  pose proof (reachable_wf _ (inv_doc _ Hinv)) as Hwf.
  split_and!.
  - apply Hinv.
  - by eapply wf_size.
  - apply Hwf.
  - intros f Hf. destruct (inv_failed _ Hinv f Hf) as [_ Hnot]. split; [done|].
    intros k Hk. apply Hnot. by apply (wf_seq_of_map _ _ _ Hwf k f).
Qed.

Lemma stm_reachable_invariant_witness :
  stm_reachable 1 (handle (AddResponse rA (add_ok 2 None)) (STM_init 1)).2 ∧
  size (state_id_map (_doc (handle (AddResponse rA (add_ok 2 None)) (STM_init 1)).2))
    = length (sentences (_doc (handle (AddResponse rA (add_ok 2 None)) (STM_init 1)).2)).
Proof.
  assert (stm_reachable 1 (handle (AddResponse rA (add_ok 2 None)) (STM_init 1)).2) as Hr.
  { apply (stm_reachable_step 1 (STM_init 1) (AddResponse rA (add_ok 2 None))
             (handle (AddResponse rA (add_ok 2 None)) (STM_init 1)).1).
    - apply stm_reachable_init.
    - intros _. reflexivity.
    - apply surjective_pairing. }
  split; [exact Hr|].
  apply (stm_reachable_invariant 1 _ Hr).
Defined.

(** ** Rollback without focus *)

Lemma py_slice_from {A} (l : list A) index :
  0 ≤ index → py_slice l (Slice (Some index) None) = drop (Z.to_nat index) l.
Proof.
  intros Hi. unfold py_slice, slice_lo, slice_hi, slice_bound. cbn [slice_start slice_stop].
  destruct (decide (index < 0)); [lia|].
  destruct (decide (index ≤ Z.of_nat (length l))).
  - replace (Z.to_nat (index `min` Z.of_nat (length l))) with (Z.to_nat index) by lia.
    apply take_ge. rewrite length_drop. lia.
  - rewrite !drop_ge by lia. by rewrite take_nil.
Qed.

Lemma py_del_slice_from {A} (l : list A) index :
  0 ≤ index → py_del_slice l (Slice (Some index) None) = take (Z.to_nat index) l.
Proof.
  intros Hi. unfold py_del_slice, slice_lo, slice_hi, slice_bound.
  cbn [slice_start slice_stop].
  destruct (decide (index < 0)); [lia|].
  rewrite drop_ge by lia. rewrite app_nil_r.
  destruct (decide (index ≤ Z.of_nat (length l))).
  - f_equal. lia.
  - rewrite !take_ge by lia. done.
Qed.

Lemma unfocused_rollback_raw x index q :
  reachable (_doc x) →
  0 ≤ index →
  ∃ x', on_edit_at_res index (mkEditAtRes None false q) x = (Ok tt, x') ∧
        sentences (_doc x') = take (Z.to_nat index) (sentences (_doc x)) ∧
        _tip_sentence x' = None ∧
        (∀ s, s ∈ drop (Z.to_nat index) (sentences (_doc x)) →
              state_id_map (_doc x') !! state_id s = None) ∧
        task_done (_task_thread x') = S (task_done (_task_thread x)).
Proof.
  intros Hr Hi. rewrite on_edit_at_unfocused. cbv zeta.
  destruct (remove_by_index_post (_doc x) (Slice (Some index) None) Hr)
    as (d' & -> & Hs & Hrem & _).
  rewrite py_del_slice_from in Hs by done. rewrite py_slice_from in Hrem by done.
  eexists. split; [reflexivity|]. cbn. split_and!; try done.
  intros s Hs_in. by apply Hrem.
Qed.

(** X7. Rollback without focus: on a reachable document and for an index
    [>= 0], a successful EditAt response with [focused == False] returns
    normally, keeps the first [index] sentences and removes all the others
    (none when [index >= len(sentences)]), un-highlights each removed
    sentence and takes it out of the state-id map, clears the tip, calls
    [done] once and sends nothing. *)
Theorem unfocused_rollback x index q :
  reachable (_doc x) →
  0 ≤ index →
  let ss := sentences (_doc x) in
  ∃ x', on_edit_at_res index (mkEditAtRes None false q) x = (Ok tt, x') ∧
        sentences (_doc x') = take (Z.to_nat index) ss ∧
        _tip_sentence x' = None ∧
        actions x' = actions x ++ (UnhlSentence <$> drop (Z.to_nat index) ss) ∧
        (∀ s, s ∈ drop (Z.to_nat index) ss →
              store x' !! obj s = None ∧ state_id_map (_doc x') !! state_id s = None) ∧
        (∀ s, s ∈ take (Z.to_nat index) ss →
              state_id_map (_doc x') !! state_id s = Some s) ∧
        task_done (_task_thread x') = S (task_done (_task_thread x)) ∧
        requests x' = requests x ∧
        reachable (_doc x').
Proof.
  intros Hr Hi ss. rewrite on_edit_at_unfocused. cbv zeta.
  destruct (remove_by_index_post (_doc x) (Slice (Some index) None) Hr)
    as (d' & -> & Hs & Hrem & Hkeep & Hr').
  fold ss in Hs, Hrem. rewrite py_del_slice_from in Hs by done.
  rewrite py_slice_from in Hrem by done. fold ss. rewrite py_slice_from by done.
  eexists. split; [reflexivity|]. cbn. split_and!; try done.
  - intros s Hs_in. split.
    + by apply (unhighlighted_store (drop (Z.to_nat index) ss) x s).
    + by apply Hrem.
  - intros s Hs_in. apply Hkeep. by rewrite Hs.
Qed.

Lemma unfocused_rollback_witness :
  reachable (_doc stm_ABC) ∧ 0 ≤ 1 ∧
  ∃ x', on_edit_at_res 1 (mkEditAtRes None false None) stm_ABC = (Ok tt, x') ∧
        sentences (_doc x') = [sA] ∧ _tip_sentence x' = None.
Proof.
  split_and!; [apply stm_ABC_reachable|lia|].
  destruct (unfocused_rollback stm_ABC 1 None stm_ABC_reachable ltac:(lia))
    as (x' & Hrun & Hs & Ht & _).
  exists x'. split_and!; [exact Hrun| |exact Ht].
  rewrite Hs. vm_compute. reflexivity.
Defined.

(** ** Who calls [done] *)

Lemma failed_cleared_task_thread x : _task_thread (failed_cleared x) = _task_thread x.
Proof. unfold failed_cleared. by destruct (_failed_sentence x). Qed.

(** X8. The handlers wrapped in [_finally_call(done)] (the responses to
    Init, Add and Goal and the connection-lost callback) release the
    semaphore exactly once on every input, also when their body raises.
    The EditAt handler is not wrapped: it releases the semaphore once when
    the response carries no error and the handler returns normally, and not
    at all otherwise, that is when it raises or when it answers an error
    response by a retry. *)
Theorem done_is_called x :
  (∀ res, task_done (_task_thread (on_init_res res x).2) = S (task_done (_task_thread x))) ∧
  (∀ sregion res,
     task_done (_task_thread (on_add_res sregion res x).2) = S (task_done (_task_thread x))) ∧
  (∀ res, task_done (_task_thread (on_goal_res res x).2) = S (task_done (_task_thread x))) ∧
  task_done (_task_thread (on_lost x).2) = S (task_done (_task_thread x)) ∧
  (∀ index res,
     task_done (_task_thread (on_edit_at_res index res x).2) =
       match edit_error res, (on_edit_at_res index res x).1 with
       | None, Ok _ => S (task_done (_task_thread x))
       | _, _ => task_done (_task_thread x)
       end).
Proof.
  split_and!.
  - intros res. unfold on_init_res, _finally_call. by destruct (init_error res).
  - intros sregion res. destruct (add_error res) as [err|] eqn:Herr.
    + by rewrite (on_add_res_failure _ _ _ _ Herr).
    + rewrite (on_add_res_success _ _ _ Herr). cbv zeta.
      destruct (Document.add _ _ _) as [[[]|e] d']; [|done].
      destruct (truthy _); [|done]. by destruct (state_id_map_getitem _ _).
  - intros res. unfold on_goal_res, _finally_call. by destruct (goal_error res).
  - by rewrite on_lost_run.
  - intros index [[err|] foc q]; cbn [edit_error].
    + rewrite on_edit_at_error. cbv zeta.
      destruct (Document.dict_getitem _ _) as [s|e]; [|done].
      destruct (py_index _ s) as [i|e]; [|done].
      rewrite backward_before_index_run.
      destruct (if decide (Z.of_nat i + 1 = 0) then _ else _) as [sid|e]; [|done].
      cbn. rewrite failed_cleared_task_thread.
      by destruct (Ok tt : outcome unit).
    + destruct foc.
      * rewrite on_edit_at_focused.
        destruct (state_id_map_getitem _ _) as [qs|e]; [|done].
        destruct (py_index _ qs) as [qi|e]; [|done]. cbv zeta.
        destruct (Document.remove_by_index _ _) as [[[]|e] d']; [|done].
        by destruct (py_getitem _ _).
      * rewrite on_edit_at_unfocused. cbv zeta.
        by destruct (Document.remove_by_index _ _) as [[[]|e] d'].
Qed.

(** ** The tasks of a rollback *)

Lemma backward_before_index_nat x (i : nat) :
  (i ≤ length (sentences (_doc x)))%nat →
  _backward_before_index (Z.of_nat i) x =
    (Ok tt, sent (EditAtReq (edit_at_target x i)) (OnEditAtRes (Z.of_nat i))
              (failed_cleared x)).
Proof.
  intros Hi. rewrite backward_before_index_run. destruct i as [|j].
  - rewrite decide_True by done. done.
  - rewrite decide_False by lia.
    destruct (lookup_lt_is_Some_2 (sentences (_doc x)) j) as [s Hs]; [lia|].
    replace (Z.of_nat (S j) - 1) with (Z.of_nat j) by lia.
    rewrite (py_getitem_nonneg _ _ _ Hs). cbn [edit_at_target]. by rewrite Hs.
Qed.

Lemma stops_after_mark_lt mark s :
  stops_after mark s = true ↔ mark_lt mark (stop (region s)).
Proof.
  unfold stops_after, mark_lt.
  rewrite orb_true_iff, andb_true_iff, !bool_decide_eq_true. lia.
Qed.

Lemma first_stop_after_spec mark k l :
  match first_stop_after mark k l with
  | Some i =>
      (k ≤ i)%nat ∧
      (∃ s, l !! (i - k)%nat = Some s ∧ mark_lt mark (stop (region s))) ∧
      (∀ j s, (j < i - k)%nat → l !! j = Some s → ¬ mark_lt mark (stop (region s)))
  | None => ∀ s, s ∈ l → ¬ mark_lt mark (stop (region s))
  end.
Proof.
  revert k. induction l as [|s l IH]; intros k; cbn [first_stop_after].
  - by intros s ?%elem_of_nil.
  - destruct (stops_after mark s) eqn:Es.
    + split; [lia|]. rewrite Nat.sub_diag. split.
      * exists s. split; [done|]. by apply stops_after_mark_lt.
      * intros j s' Hj. lia.
    + assert (¬ mark_lt mark (stop (region s))) as Hs.
      { rewrite <- stops_after_mark_lt. by rewrite Es. }
      specialize (IH (S k)). destruct (first_stop_after mark (S k) l) as [i|].
      * destruct IH as (Hk & (s' & Hl & Hlt) & Hmin). split; [lia|]. split.
        -- exists s'. split; [|done].
           replace (i - k)%nat with (S (i - S k)) by lia. done.
        -- intros j s'' Hj Hl'. destruct j as [|j]; cbn in Hl'.
           ++ by injection Hl' as <-.
           ++ apply (Hmin j s''); [lia|done].
      * intros s' [->|Hin]%elem_of_cons; [done|by apply IH].
Qed.

(** X9. The task of [backward_before_mark(mark)] never raises.  It looks for
    the first sentence, in document order, whose stop lies strictly after
    [mark] (by line, then by column): when there is one, at position [i],
    it clears the failed sentence and sends one EditAt request, for the
    state id of the sentence at [i - 1] or for the initial state id when
    [i == 0]; when there is none it calls [done] and sends nothing. *)
Theorem backward_before_mark_task x mark :
  match first_stop_after mark 0 (sentences (_doc x)) with
  | Some i =>
      (∃ s, sentences (_doc x) !! i = Some s ∧ mark_lt mark (stop (region s))) ∧
      (∀ j s, (j < i)%nat → sentences (_doc x) !! j = Some s →
              ¬ mark_lt mark (stop (region s))) ∧
      run_task (TaskBackwardBeforeMark mark) x =
        (Ok tt, sent (EditAtReq (edit_at_target x i)) (OnEditAtRes (Z.of_nat i))
                  (failed_cleared x))
  | None =>
      (∀ s, s ∈ sentences (_doc x) → ¬ mark_lt mark (stop (region s))) ∧
      run_task (TaskBackwardBeforeMark mark) x = (Ok tt, done_called x)
  end.
Proof.
  pose proof (first_stop_after_spec mark 0 (sentences (_doc x))) as Hspec.
  cbn [run_task]. rewrite bind_get.
  destruct (first_stop_after mark 0 (sentences (_doc x))) as [i|].
  - destruct Hspec as (_ & (s & Hs & Hlt) & Hmin). rewrite Nat.sub_0_r in Hs.
    split_and!.
    + eauto.
    + intros j s' Hj. apply Hmin. lia.
    + apply backward_before_index_nat. apply lookup_lt_Some in Hs. lia.
  - split; [done|reflexivity].
Qed.

(** X10. The task of [backward()] never raises.  On an empty document it
    calls [done] and sends nothing.  Otherwise it sends one EditAt request
    for the state before the last sentence; when the checker answers it
    without error and without focus, on a reachable document, exactly the
    last sentence is removed, the tip is cleared and [done] is called. *)
Theorem backward_task x :
  (sentences (_doc x) = [] →
   run_task TaskBackward x = (Ok tt, done_called x)) ∧
  (∀ l s q, sentences (_doc x) = l ++ [s] →
     run_task TaskBackward x =
       (Ok tt, sent (EditAtReq (edit_at_target x (length l)))
                 (OnEditAtRes (Z.of_nat (length l))) (failed_cleared x)) ∧
     (reachable (_doc x) →
      ∃ x', (run_task TaskBackward ;;
             on_edit_at_res (Z.of_nat (length l)) (mkEditAtRes None false q)) x
            = (Ok tt, x') ∧
            sentences (_doc x') = l ∧ _tip_sentence x' = None ∧
            state_id_map (_doc x') !! state_id s = None ∧
            task_done (_task_thread x') = S (task_done (_task_thread x)))).
Proof.
  split.
  - intros Hs. cbn [run_task]. rewrite bind_get. unfold Document.bool_. by rewrite Hs.
  - intros l s q Hs.
    assert (run_task TaskBackward x =
            (Ok tt, sent (EditAtReq (edit_at_target x (length l)))
                      (OnEditAtRes (Z.of_nat (length l))) (failed_cleared x))) as Htask.
    { assert (Document.bool_ (_doc x) = true) as Hb.
      { unfold Document.bool_. rewrite Hs. by destruct l. }
      cbn [run_task]. rewrite bind_get, Hb.
      replace (Z.of_nat (length (sentences (_doc x))) - 1) with (Z.of_nat (length l))
        by (rewrite Hs, length_app; simpl; lia).
      apply backward_before_index_nat. rewrite Hs, length_app. lia. }
    split; [exact Htask|]. intros Hr.
    rewrite (bind_Ok _ _ _ _ _ Htask).
    set (x1 := sent _ _ (failed_cleared x)).
    assert (_doc x1 = _doc x) as Hd by apply failed_cleared_doc.
    destruct (unfocused_rollback_raw x1 (Z.of_nat (length l)) q) as (x' & Hrun & Hs' & Ht & Hm & Htd);
      [by rewrite Hd|lia|].
    exists x'. rewrite Hd, Hs, Nat2Z.id, take_app_length in Hs'.
    split_and!; try done.
    + apply Hm. rewrite Hd, Hs, Nat2Z.id, drop_app_length. apply list_elem_of_here.
    + rewrite Htd. subst x1. cbn. by rewrite failed_cleared_task_thread.
Qed.

(** ** The public calls *)

Lemma schedule_run t x : schedule t x = (Ok tt, scheduled [t] x).
Proof. reflexivity. Qed.

Lemma scheduled_app ts1 ts2 x : scheduled ts2 (scheduled ts1 x) = scheduled (ts1 ++ ts2) x.
Proof.
  destruct x as [d f i [c n q td] b t st no a r]. unfold scheduled, set_task_thread. cbn.
  f_equal. f_equal; [|by rewrite app_assoc]. rewrite length_app. lia.
Qed.

Lemma scheduled_nil x : scheduled [] x = x.
Proof.
  destruct x as [d f i [c n q td] b t st no a r]. unfold scheduled, set_task_thread. cbn.
  f_equal. f_equal; [lia|by rewrite app_nil_r].
Qed.

Lemma for_each_forward_one sregions x :
  for_each sregions _forward_one x = (Ok tt, scheduled (TaskForwardOne <$> sregions) x).
Proof.
  revert x. induction sregions as [|r rs IH]; intros x.
  - cbn. by rewrite scheduled_nil.
  - cbn [for_each]. unfold _forward_one at 1.
    rewrite (bind_Ok _ _ _ _ _ (schedule_run _ x)), IH, scheduled_app. done.
Qed.

Lemma last_has_error_run x : last_has_error x = (Ok (last_errored x), x).
Proof.
  unfold last_has_error, last_errored. rewrite bind_get. unfold Document.bool_.
  destruct (last (sentences (_doc x))) as [s|] eqn:El.
  - destruct (sentences (_doc x)) as [|s0 l] eqn:Es; [done|].
    by rewrite bind_lift, (py_getitem_last _ _ El).
  - apply last_None in El. by rewrite El.
Qed.

Lemma forward_many_closed_form x sregions :
  forward_many sregions x =
    (Ok tt, if last_errored x
            then notified (ShowMessage "Fix the error first." "error") x
            else scheduled ((TaskForwardOne <$> sregions) ++ [TaskGetGoals]) x).
Proof.
  unfold forward_many.
  rewrite (bind_Ok _ _ _ _ _ (last_has_error_run x)).
  destruct (last_errored x); [reflexivity|].
  rewrite (bind_Ok _ _ _ _ _ (for_each_forward_one _ x)).
  unfold _update_goal. by rewrite schedule_run, scheduled_app.
Qed.




(** ** Failures and the queue *)

(** X12. A failure cancels what depends on it.  The queue is empty, the
    thread is not closing and the last sentence is not errored; regions
    [r :: rs] are handed to [forward_many], no more of them than the queue
    has room for together with the Goal task; the thread runs the first task;
    the checker rejects its Add request; the thread finishes the task and
    turns to the queue again.  Then the whole run returns normally, exactly
    one request was sent, the Add request for [r]: none for a region of
    [rs] and no Goal request; the queue is empty and the count of scheduled
    tasks is back to what it was; the document is unchanged and the failed
    sentence carries [r]. *)
Theorem failure_cancels_dependents x r rs err new next msg :
  _schedule_queue (_task_thread x) = [] →
  has_room (length (r :: rs) + 1) x →
  _closing (_task_thread x) = false →
  last_errored x = false →
  ∃ x', (forward_many (r :: rs) ;;
         thread_run_next ;;
         on_add_res r (mkAddRes (Some err) new next msg) ;;
         thread_task_finished ;;
         thread_run_next) x = (Ok tt, x') ∧
        requests x' = requests x ++
          [(AddReq (command r) (-1) (predecessor_state_id x) false, OnAddRes r)] ∧
        _schedule_queue (_task_thread x') = [] ∧
        _scheduled_task_count (_task_thread x') = _scheduled_task_count (_task_thread x) ∧
        task_done (_task_thread x') = task_done (_task_thread x) ∧
        _doc x' = _doc x ∧
        _failed_sentence x' = Some (mkSentence (next_obj x) r 0).
Proof.
  intros Hq _ Hc Hl.
  pose proof (forward_many_closed_form x (r :: rs)) as Hfm.
  rewrite Hl in Hfm. rewrite (bind_Ok _ _ _ _ _ Hfm). clear Hfm.
  set (x1 := scheduled ((TaskForwardOne <$> r :: rs) ++ [TaskGetGoals]) x).
  set (x1' := set_task_thread (λ th, mkTaskThread (_closing th) (_scheduled_task_count th)
                ((TaskForwardOne <$> rs) ++ [TaskGetGoals]) (task_done th)) x1).
  assert (_schedule_queue (_task_thread x1)
          = TaskForwardOne r :: (TaskForwardOne <$> rs) ++ [TaskGetGoals]) as Hq1.
  { unfold x1, scheduled. cbn [_task_thread set_task_thread _schedule_queue].
    by rewrite Hq. }
  assert (_closing (_task_thread x1) = false) as Hc1 by exact Hc.
  assert (thread_run_next x1 = run_task (TaskForwardOne r) x1') as Hnext.
  { unfold thread_run_next. rewrite bind_get, Hq1, bind_modify, Hc1. reflexivity. }
  rewrite forward_one_task_run in Hnext. rewrite (bind_Ok _ _ _ _ _ Hnext). clear Hnext.
  set (x2 := set_requests _ (failed_cleared x1')).
  rewrite (bind_Ok _ _ _ _ _
             (on_add_res_failure r (mkAddRes (Some err) new next msg) err x2 eq_refl)).
  set (x3 := done_called _).
  unfold thread_task_finished. rewrite bind_modify.
  set (x4 := set_task_thread _ x3).
  assert (_task_thread x4
          = mkTaskThread false
              (_scheduled_task_count (_task_thread x) + Z.of_nat (length (r :: rs) + 1)
               - Z.of_nat (length rs + 1) - 1)
              [] (task_done (_task_thread x))) as Hth.
  { unfold x4, x3, x2, done_called, highlighted, discarded.
    cbn [_task_thread set_task_thread set_actions set_store set_failed_sentence
         set_next_obj set_requests task_done _closing _scheduled_task_count _schedule_queue].
    rewrite failed_cleared_task_thread. unfold x1', x1, scheduled.
    cbn [_task_thread set_task_thread task_done _closing _scheduled_task_count
         _schedule_queue].
    rewrite Hc, !length_app, !length_fmap. f_equal. }
  exists x4. split.
  - unfold thread_run_next. rewrite bind_get, Hth. reflexivity.
  - rewrite Hth. cbn [_schedule_queue _scheduled_task_count task_done].
    assert (requests x4 = requests x2) as -> by reflexivity.
    assert (_doc x4 = _doc x2) as -> by reflexivity.
    assert (_failed_sentence x4 = Some (mkSentence (next_obj x2) r 0)) as -> by reflexivity.
    unfold x2. cbn [requests _doc next_obj set_requests].
    rewrite failed_cleared_requests, failed_cleared_doc, failed_cleared_next_obj.
    assert (predecessor_state_id x1' = predecessor_state_id x) as -> by reflexivity.
    split_and!; try reflexivity. cbn [length]. lia.
Qed.

Lemma failure_cancels_dependents_witness :
  _schedule_queue (_task_thread stm_ABC) = [] ∧
  has_room (length [rD; rA] + 1) stm_ABC ∧
  _closing (_task_thread stm_ABC) = false ∧
  last_errored stm_ABC = false ∧
  ∃ x', (forward_many [rD; rA] ;;
         thread_run_next ;;
         on_add_res rD (mkAddRes (Some (mkErrorInfo None 0 "rejected")) 0 None "") ;;
         thread_task_finished ;;
         thread_run_next) stm_ABC = (Ok tt, x') ∧
        requests x' = requests stm_ABC ++ [(AddReq "fourth" (-1) (Some 4) false, OnAddRes rD)].
Proof.
  assert (_schedule_queue (_task_thread stm_ABC) = []) as Hq by (vm_compute; reflexivity).
  assert (has_room (length [rD; rA] + 1) stm_ABC) as Hroom
    by (unfold has_room; vm_compute; lia).
  assert (_closing (_task_thread stm_ABC) = false) as Hc by (vm_compute; reflexivity).
  assert (last_errored stm_ABC = false) as Hl by (vm_compute; reflexivity).
  split_and!; [exact Hq|exact Hroom|exact Hc|exact Hl|].
  destruct (failure_cancels_dependents stm_ABC rD [rA] (mkErrorInfo None 0 "rejected")
              0 None "" Hq Hroom Hc Hl) as (x' & Hrun & Hreq & _).
  exists x'. split; [exact Hrun|]. rewrite Hreq. f_equal.
Defined.

(** X13. Connection loss while one task is running on a thread that is not
    closing, whose queue holds tasks only and no more than its capacity (the
    count of scheduled tasks is the length of the queue plus one): once the callback has run
    and the thread has taken the release of the semaphore, the count is 0,
    so [is_busy()] is false, the queue and the document are empty and one
    [ConnLost] for the buffer number was the last action. *)
Theorem connection_lost_not_busy x :
  _closing (_task_thread x) = false →
  has_room 0 x →
  _scheduled_task_count (_task_thread x)
    = Z.of_nat (length (_schedule_queue (_task_thread x))) + 1 →
  ∃ x', (on_lost ;; thread_task_finished) x = (Ok tt, x') ∧
        is_busy x' = false ∧
        _scheduled_task_count (_task_thread x') = 0 ∧
        _schedule_queue (_task_thread x') = [] ∧
        task_done (_task_thread x') = task_done (_task_thread x) ∧
        sentences (_doc x') = [] ∧
        last (actions x') = Some (ConnLost (_bufnr x)).
Proof.
  intros _ _ Hcount. rewrite (bind_Ok _ _ _ _ _ (on_lost_run x)).
  eexists. split; [reflexivity|]. unfold is_busy, TaskThread.scheduled_task_count. cbn.
  rewrite Hcount. split_and!; try done.
  - apply bool_decide_eq_false. lia.
  - lia.
  - by rewrite last_snoc.
Qed.

Lemma connection_lost_not_busy_witness :
  _closing
    (_task_thread (thread_run_next (scheduled [TaskGetGoals; TaskGetGoals] stm_ABC)).2)
  = false ∧
  has_room 0 (thread_run_next (scheduled [TaskGetGoals; TaskGetGoals] stm_ABC)).2 ∧
  _scheduled_task_count
    (_task_thread (thread_run_next (scheduled [TaskGetGoals; TaskGetGoals] stm_ABC)).2)
  = Z.of_nat (length (_schedule_queue
      (_task_thread (thread_run_next (scheduled [TaskGetGoals; TaskGetGoals] stm_ABC)).2)))
    + 1 ∧
  ∃ x', (on_lost ;; thread_task_finished)
          (thread_run_next (scheduled [TaskGetGoals; TaskGetGoals] stm_ABC)).2 = (Ok tt, x') ∧
        is_busy x' = false.
Proof.
  assert (_closing
    (_task_thread (thread_run_next (scheduled [TaskGetGoals; TaskGetGoals] stm_ABC)).2)
  = false) as Hc by (vm_compute; reflexivity).
  assert (has_room 0 (thread_run_next (scheduled [TaskGetGoals; TaskGetGoals] stm_ABC)).2)
    as Hroom by (unfold has_room; vm_compute; lia).
  assert (_scheduled_task_count
    (_task_thread (thread_run_next (scheduled [TaskGetGoals; TaskGetGoals] stm_ABC)).2)
  = Z.of_nat (length (_schedule_queue
      (_task_thread (thread_run_next (scheduled [TaskGetGoals; TaskGetGoals] stm_ABC)).2)))
    + 1) as Hcount by (vm_compute; reflexivity).
  split_and!; [exact Hc|exact Hroom|exact Hcount|].
  destruct (connection_lost_not_busy _ Hc Hroom Hcount) as (x' & Hrun & Hbusy & _).
  exists x'. split; assumption.
Defined.

(** X14. The connection-lost callback does not reset the tip.  When a tip is
    set at the time of the loss, a later successful Add response finds the
    tip missing from the emptied sequence: [Document.add] raises
    [ValueError] out of [list.index], the new sentence is not inserted, the
    document stays empty, and [done] is still called. *)
Theorem add_after_connection_lost x t sregion res :
  _tip_sentence x = Some t →
  add_error res = None →
  _tip_sentence (on_lost x).2 = Some t ∧
  ∃ x', on_add_res sregion res (on_lost x).2 = (Raise ValueError, x') ∧
        sentences (_doc x') = [] ∧ state_id_map (_doc x') = ∅ ∧
        _tip_sentence x' = Some t ∧
        task_done (_task_thread x') = S (S (task_done (_task_thread x))).
Proof.
  intros Ht Herr. rewrite on_lost_run. cbn [snd]. split; [exact Ht|].
  rewrite (on_add_res_success _ _ _ Herr). cbv zeta.
  set (x1 := done_called _).
  assert (_tip_sentence x1 = Some t) as Ht1 by exact Ht.
  assert (_doc x1 = Document.init) as Hd1 by reflexivity.
  rewrite Ht1, Hd1.
  pose proof (add_run (mkSentence (next_obj x1) sregion (new_state_id res)) (Some t)
                Document.init) as Hadd.
  unfold add_position in Hadd. cbn [py_index sentences Document.init] in Hadd.
  rewrite Hadd. eexists. split; [reflexivity|]. cbn. done.
Qed.

Lemma add_after_connection_lost_witness :
  _tip_sentence stm_focused = Some sA ∧
  add_error (add_ok 5 None) = None ∧
  (on_add_res rD (add_ok 5 None) (on_lost stm_focused).2).1 = Raise ValueError.
Proof.
  assert (_tip_sentence stm_focused = Some sA) as Ht by (vm_compute; reflexivity).
  split_and!; [exact Ht|reflexivity|].
  destruct (add_after_connection_lost stm_focused sA rD (add_ok 5 None) Ht eq_refl)
    as (_ & x' & Hrun & _).
  by rewrite Hrun.
Defined.

(** ** Init and Goal *)

(** X15. The initial state id.  A successful Init response stores the state
    id it carries and calls [done]; on an empty document without a tip the
    task of the next forward then sends [AddReq(command, -1, that id,
    False)].  An Init response with an error raises [RuntimeError] with the
    reported message after [done] was called and leaves the initial state id
    as it was. *)
Theorem initial_state_id_flow x res sregion :
  sentences (_doc x) = [] →
  _tip_sentence x = None →
  match init_error res with
  | None =>
      ∃ x1 x2, on_init_res res x = (Ok tt, x1) ∧
               _init_state_id x1 = init_state_id res ∧
               run_task (TaskForwardOne sregion) x1 = (Ok tt, x2) ∧
               requests x2 = requests x ++
                 [(AddReq (command sregion) (-1) (init_state_id res) false,
                   OnAddRes sregion)]
  | Some err =>
      ∃ x1, on_init_res res x = (Raise (RuntimeError (err_message err)), x1) ∧
            _init_state_id x1 = _init_state_id x ∧
            requests x1 = requests x
  end ∧
  task_done (_task_thread (on_init_res res x).2) = S (task_done (_task_thread x)).
Proof.
  intros Hs Ht. unfold on_init_res, _finally_call.
  destruct (init_error res) as [err|].
  - split; [|reflexivity]. exists (done_called x). split_and!; reflexivity.
  - split; [|reflexivity].
    set (x1 := done_called (set_init_state_id (init_state_id res) x)).
    exists x1, (set_requests (λ l, l ++ [(AddReq (command sregion) (-1)
                   (predecessor_state_id x1) false, OnAddRes sregion)])
                  (failed_cleared x1)).
    split_and!; [reflexivity|reflexivity|apply forward_one_task_run|].
    cbn [requests set_requests]. rewrite failed_cleared_requests.
    assert (predecessor_state_id x1 = init_state_id res) as ->; [|reflexivity].
    unfold predecessor_state_id.
    replace (_tip_sentence x1) with (_tip_sentence x) by reflexivity.
    replace (_doc x1) with (_doc x) by reflexivity.
    by rewrite Ht, Hs.
Qed.

Lemma initial_state_id_flow_witness :
  sentences (_doc (STM_init 1)) = [] ∧
  _tip_sentence (STM_init 1) = None ∧
  ∃ x1 x2, on_init_res (mkInitRes None (Some 7)) (STM_init 1) = (Ok tt, x1) ∧
           run_task (TaskForwardOne rA) x1 = (Ok tt, x2) ∧
           requests x2 = [(AddReq "first" (-1) (Some 7) false, OnAddRes rA)].
Proof.
  split_and!; [reflexivity|reflexivity|].
  destruct (initial_state_id_flow (STM_init 1) (mkInitRes None (Some 7)) rA eq_refl eq_refl)
    as [(x1 & x2 & Hinit & _ & Htask & Hreq) _].
  exists x1, x2. split_and!; [exact Hinit|exact Htask|exact Hreq].
Defined.

(** X16. A Goal response never raises and always calls [done]: without error
    it hands [ShowGoals] with its goals to [handle_action]; with an error it
    does nothing else at all, so the error reaches neither the user nor the
    state.  Tip, document, failed sentence, highlighting and requests are
    untouched in both cases. *)
Theorem goal_response x res :
  ∃ x', on_goal_res res x = (Ok tt, x') ∧
        actions x' = match goal_error res with
                     | None => actions x ++ [ShowGoals (goals res)]
                     | Some _ => actions x
                     end ∧
        task_done (_task_thread x') = S (task_done (_task_thread x)) ∧
        _schedule_queue (_task_thread x') = _schedule_queue (_task_thread x) ∧
        _doc x' = _doc x ∧ _tip_sentence x' = _tip_sentence x ∧
        _failed_sentence x' = _failed_sentence x ∧
        store x' = store x ∧ requests x' = requests x.
Proof.
  unfold on_goal_res, _finally_call.
  destruct (goal_error res) as [err|]; eexists; (split; [reflexivity|]); done.
Qed.

(** ** A successful forward *)

(** X17. A successful Add response on a reachable document, with a state id
    not yet in the map, no tip and no [next_state_id]: the handler returns
    normally; a new sentence with the region and the new state id is
    appended at the end, entered in the state-id map and marked Processing;
    [handle_action] receives the highlighting and then the message of the
    response at level "info"; the tip stays absent; the failed sentence is
    left as it was; [get_last_stop()] and [get_tip_stop()] are the stop of
    the region; [done] is called once and nothing is sent. *)
Theorem add_success x sregion res :
  reachable (_doc x) →
  state_id_map (_doc x) !! new_state_id res = None →
  add_error res = None →
  truthy (next_state_id res) = false →
  _tip_sentence x = None →
  let s := mkSentence (next_obj x) sregion (new_state_id res) in
  ∃ x', on_add_res sregion res x = (Ok tt, x') ∧
        sentences (_doc x') = sentences (_doc x) ++ [s] ∧
        state_id_map (_doc x') = <[new_state_id res := s]> (state_id_map (_doc x)) ∧
        store x' = <[obj s := StProcessing]> (store x) ∧
        actions x' = actions x ++
          [HlSentence s StProcessing; ShowMessage (add_message res) "info"] ∧
        _tip_sentence x' = None ∧
        _failed_sentence x' = _failed_sentence x ∧
        get_last_stop x' = stop sregion ∧ get_tip_stop x' = stop sregion ∧
        next_obj x' = S (next_obj x) ∧
        task_done (_task_thread x') = S (task_done (_task_thread x)) ∧
        requests x' = requests x ∧
        reachable (_doc x').
Proof.
  intros Hr Hfresh Herr Hnext Htip s.
  rewrite (on_add_res_success _ _ _ Herr). cbv zeta. fold s. rewrite Htip, Hnext.
  pose proof (add_run s None (_doc x)) as Hadd. cbn [add_position] in Hadd.
  destruct Hadd as (d' & Hadd & Hs & Hm & _). rewrite Hadd.
  rewrite py_insert_end in Hs.
  eexists. split; [reflexivity|].
  assert (get_last_stop (done_called (set_tip_sentence None (added s d' (add_message res) x)))
          = stop sregion) as Hstop.
  { unfold get_last_stop. cbn [_doc done_called set_task_thread set_tip_sentence added
      notified highlighted set_actions set_store set_doc set_next_obj].
    by rewrite Hs, last_snoc. }
  split_and!; try done.
  - cbn. by rewrite <- app_assoc.
  - by apply (reachable_step (_doc x) (OpAdd s None) (Ok tt) d' Hr Hfresh).
Qed.

Lemma add_success_witness :
  reachable (_doc stm_ABC) ∧
  state_id_map (_doc stm_ABC) !! new_state_id (add_ok 5 None) = None ∧
  add_error (add_ok 5 None) = None ∧
  truthy (next_state_id (add_ok 5 None)) = false ∧
  _tip_sentence stm_ABC = None ∧
  ∃ x', on_add_res rD (add_ok 5 None) stm_ABC = (Ok tt, x') ∧
        get_last_stop x' = stop rD.
Proof.
  assert (state_id_map (_doc stm_ABC) !! new_state_id (add_ok 5 None) = None) as Hfresh
    by (vm_compute; reflexivity).
  assert (_tip_sentence stm_ABC = None) as Htip by (vm_compute; reflexivity).
  split_and!; [apply stm_ABC_reachable|exact Hfresh|reflexivity|reflexivity|exact Htip|].
  destruct (add_success stm_ABC rD (add_ok 5 None) stm_ABC_reachable Hfresh eq_refl eq_refl
              Htip) as (x' & Hrun & _ & _ & _ & _ & _ & _ & Hstop & _).
  exists x'. split; assumption.
Defined.

(** ** Editing at the current state *)

(** X18. The task of [_edit_at_current_state] never raises: it clears the
    failed sentence and sends one EditAt request for the state id of the
    last sentence (the initial state id on an empty document), with the
    index [len(sentences)].  When the checker answers without error and
    without focus, no sentence is removed or un-highlighted and the document
    is exactly the same, on any document; the tip is cleared and [done] is
    called. *)
Theorem edit_at_current_state_task x q :
  let n := length (sentences (_doc x)) in
  let x1 := sent (EditAtReq (edit_at_target x n)) (OnEditAtRes (Z.of_nat n))
              (failed_cleared x) in
  run_task TaskEditAtCurrentState x = (Ok tt, x1) ∧
  edit_at_target x n =
    match last (sentences (_doc x)) with
    | Some s => Some (state_id s)
    | None => _init_state_id x
    end ∧
  on_edit_at_res (Z.of_nat n) (mkEditAtRes None false q) x1 =
    (Ok tt, done_called (set_tip_sentence None x1)).
Proof.
  intros n x1. split_and!.
  - cbn [run_task]. rewrite bind_get. apply backward_before_index_nat. done.
  - unfold edit_at_target, n. rewrite last_lookup.
    destruct (length (sentences (_doc x))) as [|j] eqn:En.
    + apply nil_length_inv in En. by rewrite En.
    + simpl. destruct (lookup_lt_is_Some_2 (sentences (_doc x)) j) as [s ->]; [lia|done].
  - rewrite on_edit_at_unfocused. cbv zeta.
    assert (_doc x1 = _doc x) as Hd by apply failed_cleared_doc.
    assert (py_slice (sentences (_doc x1)) (Slice (Some (Z.of_nat n)) None) = []) as Hemp.
    { apply py_slice_past_end. rewrite Hd. done. }
    rewrite Hemp. rewrite (remove_by_index_empty_raw _ _ Hemp).
    unfold unhighlighted. cbn [fmap list_fmap foldl].
    destruct x1 as [d f i th b t st no a r]. cbn. by rewrite app_nil_r.
Qed.

(** ** Feedback and forward *)



(** ** Closing *)

(** X20. What [close] does from the state [x] in which [shutdown_join]
    returns: it raises nothing and sends no request, hands exactly one
    un-highlighting to [handle_action] for each sentence of the document,
    in the order of the sequence, and leaves the sequence, the state-id map
    and the line map empty, with the closing flag set and the tip and the
    failed sentence as they were.  Nothing is said of the queue, of the
    count of scheduled tasks or of [is_busy()], which the worker thread may
    change while [close] waits for it, nor of whether that wait ends. *)
Theorem close_clears_document x o x' :
  close x = (o, x') →
  o = Ok tt ∧
  sentences (_doc x') = [] ∧ state_id_map (_doc x') = ∅ ∧ line_map (_doc x') = ∅ ∧
  (∀ s, s ∈ sentences (_doc x) → store x' !! obj s = None) ∧
  actions x' = actions x ++ (UnhlSentence <$> sentences (_doc x)) ∧
  requests x' = requests x ∧
  _closing (_task_thread x') = true ∧
  _tip_sentence x' = _tip_sentence x ∧
  _failed_sentence x' = _failed_sentence x.
Proof.
  rewrite close_run. intros [= <- <-]. cbn. split_and!; try done.
  intros s Hs.
  apply (unhighlighted_store (sentences (_doc x))
           (set_task_thread (λ th, mkTaskThread true (_scheduled_task_count th)
                                     (_schedule_queue th) (task_done th)) x) s Hs).
Qed.

Lemma close_clears_document_witness :
  (close stm_ABC).1 = Ok tt ∧
  sentences (_doc (close stm_ABC).2) = [] ∧
  actions (close stm_ABC).2 = actions stm_ABC ++ (UnhlSentence <$> [sA; sB; sC]).
Proof.
  assert (sentences (_doc stm_ABC) = [sA; sB; sC]) as Hs by (vm_compute; reflexivity).
  destruct (close_clears_document stm_ABC (close stm_ABC).1 (close stm_ABC).2)
    as (Ho & Hd & _ & _ & _ & Ha & _).
  { by destruct (close stm_ABC). }
  rewrite Hs in Ha. split_and!; assumption.
Defined.

(** ** Further concrete runs *)

(** [sD] added behind the tip [sA] of [doc_ABC] lands between [sA] and
    [sB]. *)
Lemma add_places_behind_tip_witness :
  (sA ∉ []) ∧
  ∃ d', Document.add sD (Some sA) doc_ABC = (Ok tt, d') ∧ sentences d' = [sA; sD; sB; sC].
Proof.
  split; [apply not_elem_of_nil|].
  destruct (add_places_behind_tip doc_ABC sD (Some sA)) as [[_ Hplace] _].
  apply (Hplace [] [sB; sC]); [reflexivity|apply not_elem_of_nil].
Defined.

(** [backward] on [stm_ABC], answered without focus: [sC] goes. *)
Lemma backward_task_witness :
  sentences (_doc stm_ABC) = [sA; sB] ++ [sC] ∧
  reachable (_doc stm_ABC) ∧
  ∃ x', (run_task TaskBackward ;;
         on_edit_at_res 2 (mkEditAtRes None false None)) stm_ABC = (Ok tt, x') ∧
        sentences (_doc x') = [sA; sB].
Proof.
  assert (sentences (_doc stm_ABC) = [sA; sB] ++ [sC]) as Hs by (vm_compute; reflexivity).
  split_and!; [exact Hs|apply stm_ABC_reachable|].
  destruct (backward_task stm_ABC) as [_ Hback].
  destruct (Hback [sA; sB] sC None Hs) as [_ Hrun].
  destruct (Hrun stm_ABC_reachable) as (x' & Hrun' & Hs' & _).
  exists x'. split; assumption.
Defined.
